(** * Contacts REST backend: shallow embedding and verified properties

    The development follows the layout of the Python sources:
    - [db/models.py], [schemas.py]        : modules [Contact], [User], [ContactCreate], [UserCreate]
    - [repository/contacts.py]            : module [repository_contacts]
    - [repository/users.py]               : module [repository_users]
    - [services/rate_limiter.py]          : module [rate_limiter]
    - [services/auth.py]                  : module [services_auth]
    - [routes/auth.py]                    : module [routes_auth]
    - [routes/contacts.py]                : module [routes_contacts]
    - [routes/users.py]                   : module [routes_users]
    - [services/email.py]                 : module [services_email]

    External collaborators (the SQL database, Redis, python-jose, passlib)
    are modelled by small executable models, each introduced where it is
    first used.  Exceptions are values of type [outcome]. *)

From Stdlib Require Import ZArith List Bool String Ascii Lia.
From Stdlib Require Import DecimalString DecimalZ.
From stdpp Require Import gmap strings list fin_maps.
Import ListNotations.

Open Scope string_scope.
Open Scope Z_scope.

(** ** Python outcomes

    A call either returns or raises.  Only the exception classes that the
    modelled code can raise are listed. *)

Inductive outcome (A : Type) : Type :=
| Return (a : A)
| HTTPException (status_code : Z) (detail : string)
| KeyError (key : string)
| AttributeError (msg : string).

Arguments Return {A} a.
Arguments HTTPException {A} status_code detail.
Arguments KeyError {A} key.
Arguments AttributeError {A} msg.

Definition HTTP_400_BAD_REQUEST : Z := 400.
Definition HTTP_401_UNAUTHORIZED : Z := 401.
Definition HTTP_409_CONFLICT : Z := 409.
Definition HTTP_422_UNPROCESSABLE_ENTITY : Z := 422.

Definition is_return {A} (o : outcome A) : bool :=
  match o with Return _ => true | _ => false end.

(** Sequencing: an exception raised by [o] propagates with the state as it
    is; otherwise the continuation runs on the returned value. *)
Definition on_return {A B S} (o : outcome A) (s : S) (k : A -> outcome B * S)
  : outcome B * S :=
  match o with
  | Return a => k a
  | HTTPException status_code detail => (HTTPException status_code detail, s)
  | KeyError key => (KeyError key, s)
  | AttributeError msg => (AttributeError msg, s)
  end.

(** The same without state, for handlers that only read. *)
Definition and_then {A B} (o : outcome A) (k : A -> outcome B) : outcome B :=
  match o with
  | Return a => k a
  | HTTPException status_code detail => HTTPException status_code detail
  | KeyError key => KeyError key
  | AttributeError msg => AttributeError msg
  end.

Definition HTTP_404_NOT_FOUND : Z := 404.

(** [str(n)] / [f"{n}"] for a Python [int]: decimal digits, a leading minus
    sign for negative numbers. *)
Definition str (n : Z) : string := NilEmpty.string_of_int (Z.to_int n).

(** ** Calendar dates ([datetime.date])

    [date.today() + timedelta(days=n)] is true calendar addition; it is
    modelled by iterating the successor day. *)

Record date : Type := mkdate { year : Z; month : Z; day : Z }.

Definition is_leap (y : Z) : bool :=
  (y mod 4 =? 0) && (negb (y mod 100 =? 0) || (y mod 400 =? 0)).

Definition days_in_month (y m : Z) : Z :=
  if m =? 2 then (if is_leap y then 29 else 28)
  else if (m =? 4) || (m =? 6) || (m =? 9) || (m =? 11) then 30
  else 31.

Definition next_day (d : date) : date :=
  if day d <? days_in_month (year d) (month d)
  then mkdate (year d) (month d) (day d + 1)
  else if month d <? 12
       then mkdate (year d) (month d + 1) 1
       else mkdate (year d + 1) 1 1.

Definition add_days (d : date) (n : nat) : date := Nat.iter n next_day d.

Definition valid_date (d : date) : Prop :=
  1 <= month d <= 12 /\ 1 <= day d <= days_in_month (year d) (month d).

(** ** db/models.py and schemas.py *)

Module Contact.
Record t : Type := mk {
  id : Z;
  first_name : string;
  second_name : string;
  email : string;
  phone : string;
  birthdate : date;
  additional_data : option string;
  user_id : option Z
}.
End Contact.

Module ContactCreate.
Record t : Type := mk {
  first_name : string;
  second_name : string;
  email : string;
  phone : string;
  birthdate : date;
  additional_data : option string
}.
End ContactCreate.

(** ** SQL comparison and LIKE

    [Contact.user_id == user.id] on a nullable column: NULL never compares
    equal. *)

Definition sql_eq (col : option Z) (v : Z) : bool :=
  match col with
  | Some x => x =? v
  | None => false
  end.

(** The database backend.  Texts are sequences of 8-bit characters, as
    in a single-byte server encoding.  A PostgreSQL session carries the
    lower-casing of the database locale ([lc_ctype]), which ILIKE compares
    with, and reads the backslash as the LIKE escape character.  SQLite has
    no default escape character and lower-cases the letters A-Z only. *)

Inductive dialect : Type := postgresql (lc_lower : ascii -> ascii) | sqlite.

Definition backslash_escapes (d : dialect) : bool :=
  match d with postgresql _ => true | sqlite => false end.

Definition percent : ascii := "%"%char.
Definition underscore : ascii := "_"%char.
Definition backslash : ascii := "\"%char.

(** [like_star m s]: some suffix of [s] satisfies [m] (the [%] wildcard). *)
Fixpoint like_star (m : string -> bool) (s : string) : bool :=
  m s || match s with
         | EmptyString => false
         | String _ s' => like_star m s'
         end.

(** [like_with same d p s]: SQL pattern matching of the text [s] against
    the pattern [p], where [same x c] decides whether the text character
    [x] matches the pattern character [c].  [%] matches any run of
    characters, [_] exactly one character, an escaped character stands for
    itself. *)
Fixpoint like_with (same : ascii -> ascii -> bool) (d : dialect) (p : string) (s : string)
         {struct p} : bool :=
  match p with
  | EmptyString => match s with EmptyString => true | _ => false end
  | String c p' =>
      if Ascii.eqb c percent then like_star (like_with same d p') s
      else if Ascii.eqb c underscore then
        match s with
        | EmptyString => false
        | String _ s' => like_with same d p' s'
        end
      else if Ascii.eqb c backslash && backslash_escapes d then
        match p' with
        | EmptyString => false
        | String e p'' =>
            match s with
            | EmptyString => false
            | String x s' => same x e && like_with same d p'' s'
            end
        end
      else
        match s with
        | EmptyString => false
        | String x s' => same x c && like_with same d p' s'
        end
  end.

(** [like d p s]: SQL [s LIKE p]. *)
Definition like (d : dialect) (p : string) (s : string) : bool :=
  like_with Ascii.eqb d p s.

Definition lower_ascii (c : ascii) : ascii :=
  let n := nat_of_ascii c in
  if (Nat.leb 65 n && Nat.leb n 90)%bool then ascii_of_nat (n + 32) else c.

Fixpoint lower (s : string) : string :=
  match s with
  | EmptyString => EmptyString
  | String c s' => String (lower_ascii c) (lower s')
  end.

(** The lower-casing a backend applies to one character. *)
Definition fold_char (d : dialect) : ascii -> ascii :=
  match d with
  | postgresql lc_lower => lc_lower
  | sqlite => lower_ascii
  end.

(** [column.ilike(pattern)].  PostgreSQL evaluates [column ILIKE pattern]:
    the pattern is read as it stands and characters are compared after
    lower-casing both with the locale.  For SQLite the ORM emits
    [lower(column) LIKE lower(pattern)]. *)
Definition ilike (d : dialect) (column pattern : string) : bool :=
  match d with
  | postgresql lc_lower =>
      like_with (fun x c => Ascii.eqb (lc_lower x) (lc_lower c)) d pattern column
  | sqlite => like d (lower pattern) (lower column)
  end.

(** [extract('month', cast(birthdate, Date))] and the same for the day.
    PostgreSQL reads the date.  On SQLite the date is stored as the text
    YYYY-MM-DD, [CAST(... AS DATE)] turns it into the number YYYY, and
    [strftime] reads that number as a Julian day: the month and day are
    those of the day numbered YYYY. *)
Definition sqlite_julian_month_day (z : Z) : Z * Z :=
  let a := Z.quot (100 * z - 186721625) 3652425 in
  let a := z + 1 + a - Z.quot a 4 in
  let b := a + 1524 in
  let c := Z.quot (100 * b - 12210) 36525 in
  let d := Z.quot (36525 * c) 100 in
  let e := Z.quot ((b - d) * 10000) 306001 in
  let x1 := Z.quot (306001 * e) 10000 in
  (if e <? 14 then e - 1 else e - 13, b - d - x1).

Definition extract_month (d : dialect) (b : date) : Z :=
  match d with
  | postgresql _ => month b
  | sqlite => fst (sqlite_julian_month_day (year b))
  end.

Definition extract_day (d : dialect) (b : date) : Z :=
  match d with
  | postgresql _ => day b
  | sqlite => snd (sqlite_julian_month_day (year b))
  end.

(** Python truthiness of an [Optional[str]]: [None] and [""] are falsy. *)
Definition truthy (o : option string) : bool :=
  match o with
  | None => false
  | Some EmptyString => false
  | Some _ => true
  end.

(** ** python-jose (symbolic model)

    A token is either a compact JWS produced by [jwt.encode] with some key
    and algorithm over a claims dictionary, or any other string.  Decoding
    succeeds exactly on a JWS made with the expected key and an accepted
    algorithm whose registered claims validate: [iat], [nbf] and [exp],
    when present, must read as integers, [nbf] not in the future and [exp]
    not in the past; [sub] and [jti], when present, must be strings; [aud]
    and [at_hash] must be absent.  Every failure of the library is a
    [JWTError] (expired signatures and claim errors are subclasses of it).
    Claim values are null, booleans, integers and strings. *)

Inductive jvalue : Type :=
| JNull
| JBool (b : bool)
| JInt (z : Z)
| JStr (s : string).

Global Instance jvalue_eq_dec : EqDecision jvalue.
Proof. solve_decision. Defined.

Inductive token : Type :=
| JWS (key : string) (alg : string) (claims : gmap string jvalue)
| Opaque (s : string).

Global Instance token_eq_dec : EqDecision token.
Proof. solve_decision. Defined.

Module jwt.

Inductive decoded : Type :=
| JWTError
| Payload (claims : gmap string jvalue).

Definition encode (claims : gmap string jvalue) (key : string) (algorithm : string)
  : token := JWS key algorithm claims.

(** Python's [int(v)] on a claim value: an integer is itself, a boolean is
    0 or 1, a string is read as a decimal literal (blanks around it, an
    optional sign, digits that single underscores may separate).  A null
    makes [int] raise a [TypeError]; it is counted here with the values
    that have no integer reading. *)
Definition is_space (c : ascii) : bool :=
  let n := nat_of_ascii c in
  ((Nat.leb 9 n && Nat.leb n 13) || Nat.eqb n 32 || Nat.eqb n 133 || Nat.eqb n 160)%bool.

Definition digit_value (c : ascii) : option Z :=
  let n := nat_of_ascii c in
  if (Nat.leb 48 n && Nat.leb n 57)%bool then Some (Z.of_nat n - 48) else None.

Fixpoint skip_spaces (s : string) : string :=
  match s with
  | EmptyString => EmptyString
  | String c s' => if is_space c then skip_spaces s' else s
  end.

Fixpoint all_spaces (s : string) : bool :=
  match s with
  | EmptyString => true
  | String c s' => is_space c && all_spaces s'
  end.

Fixpoint int_digits (acc : Z) (s : string) : option Z :=
  match s with
  | EmptyString => Some acc
  | String c s' =>
      match digit_value c with
      | Some v => int_digits (10 * acc + v) s'
      | None =>
          if Ascii.eqb c underscore then
            match s' with
            | EmptyString => None
            | String c' s'' =>
                match digit_value c' with
                | Some v => int_digits (10 * acc + v) s''
                | None => None
                end
            end
          else if all_spaces s then Some acc else None
      end
  end.

Definition int_of_string (s : string) : option Z :=
  let s := skip_spaces s in
  let '(sign, s) :=
    match s with
    | String c s' =>
        if Ascii.eqb c "+"%char then (1, s')
        else if Ascii.eqb c "-"%char then (-1, s')
        else (1, s)
    | EmptyString => (1, s)
    end in
  match s with
  | EmptyString => None
  | String c s' =>
      match digit_value c with
      | Some v => Z.mul sign <$> int_digits v s'
      | None => None
      end
  end.

Definition py_int (v : jvalue) : option Z :=
  match v with
  | JInt z => Some z
  | JBool b => Some (if b then 1 else 0)
  | JStr s => int_of_string s
  | JNull => None
  end.

(** The validators of [jwt.decode] as the code calls it: no audience,
    issuer, subject or access token is passed and the options are the
    defaults. *)

Definition validate_iat (claims : gmap string jvalue) : bool :=
  match claims !! "iat" with
  | None => true
  | Some v => bool_decide (is_Some (py_int v))
  end.

Definition validate_nbf (claims : gmap string jvalue) (now : Z) : bool :=
  match claims !! "nbf" with
  | None => true
  | Some v =>
      match py_int v with
      | Some nbf => negb (now <? nbf)
      | None => false
      end
  end.

Definition validate_exp (claims : gmap string jvalue) (now : Z) : bool :=
  match claims !! "exp" with
  | None => true
  | Some v =>
      match py_int v with
      | Some e => negb (e <? now)
      | None => false
      end
  end.

(** With no audience passed, any [aud] claim is refused. *)
Definition validate_aud (claims : gmap string jvalue) : bool :=
  match claims !! "aud" with
  | None => true
  | Some _ => false
  end.

Definition validate_sub (claims : gmap string jvalue) : bool :=
  match claims !! "sub" with
  | None => true
  | Some (JStr _) => true
  | Some _ => false
  end.

Definition validate_jti (claims : gmap string jvalue) : bool :=
  match claims !! "jti" with
  | None => true
  | Some (JStr _) => true
  | Some _ => false
  end.

(** With no access token passed, any [at_hash] claim is refused. *)
Definition validate_at_hash (claims : gmap string jvalue) : bool :=
  match claims !! "at_hash" with
  | None => true
  | Some _ => false
  end.

(** Every check but the expiry. *)
Definition validate_rest (claims : gmap string jvalue) (now : Z) : bool :=
  validate_iat claims && validate_nbf claims now && validate_aud claims
  && validate_sub claims && validate_jti claims && validate_at_hash claims.

Definition decode (t : token) (key : string) (algorithms : list string) (now : Z)
  : decoded :=
  match t with
  | Opaque _ => JWTError
  | JWS k a claims =>
      if bool_decide (k = key) && bool_decide (a ∈ algorithms)
         && validate_exp claims now && validate_rest claims now
      then Payload claims
      else JWTError
  end.

End jwt.

Module User.
Record t : Type := mk {
  id : Z;
  username : string;
  email : string;
  password : string;
  avatar : option string;
  refresh_token : option token;
  confirmed : bool
}.
End User.

Module UserCreate.
Record t : Type := mk {
  username : string;
  email : string;
  password : string
}.
End UserCreate.

(** ** The database session

    Two tables in storage order.  [.filter(p).all()] is [List.filter],
    [.first()] is the head of the filtered rows, [.offset(k).limit(n)] is
    [firstn n (skipn k _)]. *)

Record Session : Type := mkSession {
  bind : dialect;
  users : list User.t;
  contacts : list Contact.t
}.

Definition first {A} (rows : list A) : option A := List.hd_error rows.

(** Write-back of the row object returned by [.first()]: the first row
    satisfying [p] is replaced (resp. removed). *)
Fixpoint replace_first {A} (p : A -> bool) (x : A) (rows : list A) : list A :=
  match rows with
  | [] => []
  | r :: rows' => if p r then x :: rows' else r :: replace_first p x rows'
  end.

Fixpoint remove_first {A} (p : A -> bool) (rows : list A) : list A :=
  match rows with
  | [] => []
  | r :: rows' => if p r then rows' else r :: remove_first p rows'
  end.

(** Primary keys are generated by the database: larger than every key in
    the table. *)
Definition fresh_id (ids : list Z) : Z := 1 + fold_right Z.max 0 ids.

(** ** repository/contacts.py *)

Module repository_contacts.

Definition owned_by (user : User.t) (c : Contact.t) : bool :=
  sql_eq (Contact.user_id c) (User.id user).

Definition is_row (contact_id : Z) (user : User.t) (c : Contact.t) : bool :=
  (Contact.id c =? contact_id) && owned_by user c.

(** [skip] and [limit] are row counts (OFFSET and LIMIT). *)
Definition get_contacts (db : Session) (user : User.t) (skip limit : nat)
  : list Contact.t :=
  firstn limit (skipn skip (List.filter (owned_by user) (contacts db))).

Definition get_contact (db : Session) (contact_id : Z) (user : User.t)
  : option Contact.t :=
  first (List.filter (is_row contact_id user) (contacts db)).

Definition create_contact (db : Session) (contact : ContactCreate.t) (user : User.t)
  : Contact.t * Session :=
  let db_contact :=
    Contact.mk (fresh_id (map Contact.id (contacts db)))
               (ContactCreate.first_name contact)
               (ContactCreate.second_name contact)
               (ContactCreate.email contact)
               (ContactCreate.phone contact)
               (ContactCreate.birthdate contact)
               (ContactCreate.additional_data contact)
               (Some (User.id user)) in
  (db_contact, mkSession (bind db) (users db) (contacts db ++ [db_contact])).

Definition upgrade_contact (db : Session) (user : User.t) (contact_id : Z)
           (contact : ContactCreate.t) : option Contact.t * Session :=
  match first (List.filter (is_row contact_id user) (contacts db)) with
  | Some db_contact =>
      let db_contact' :=
        Contact.mk (Contact.id db_contact)
                   (ContactCreate.first_name contact)
                   (ContactCreate.second_name contact)
                   (ContactCreate.email contact)
                   (ContactCreate.phone contact)
                   (ContactCreate.birthdate contact)
                   (ContactCreate.additional_data contact)
                   (Contact.user_id db_contact) in
      (Some db_contact',
       mkSession (bind db) (users db)
                 (replace_first (is_row contact_id user) db_contact' (contacts db)))
  | None => (None, db)
  end.

Definition delete_contact (db : Session) (user : User.t) (contact_id : Z)
  : option Contact.t * Session :=
  match first (List.filter (is_row contact_id user) (contacts db)) with
  | Some db_contact =>
      (Some db_contact,
       mkSession (bind db) (users db)
                 (remove_first (is_row contact_id user) (contacts db)))
  | None => (None, db)
  end.

Definition contains_pattern (s : string) : string :=
  String percent (String.append s (String percent EmptyString)).

Definition opt_filter (d : dialect) (arg : option string)
           (column : Contact.t -> string) (query : list Contact.t) : list Contact.t :=
  match arg with
  | Some s =>
      if truthy arg
      then List.filter (fun c => ilike d (column c) (contains_pattern s)) query
      else query
  | None => query
  end.

Definition search_contacts (db : Session) (user : User.t)
           (first_name second_name email : option string) : list Contact.t :=
  let query := List.filter (owned_by user) (contacts db) in
  let query := opt_filter (bind db) first_name Contact.first_name query in
  let query := opt_filter (bind db) second_name Contact.second_name query in
  let query := opt_filter (bind db) email Contact.email query in
  query.

(** [today] is the value of [date.today()] at the call. *)
Definition get_upcoming_birthdays (today : date) (db : Session) (user : User.t)
  : list Contact.t :=
  let seven_days_later := add_days today 7 in
  let contacts_with_upcoming_birthdays :=
    List.filter
      (fun c => owned_by user c
                && (extract_month (bind db) (Contact.birthdate c) =? month today)
                && (extract_day (bind db) (Contact.birthdate c) >=? day today)
                && (extract_day (bind db) (Contact.birthdate c) <=? day seven_days_later))
      (contacts db) in
  if negb (month today =? month seven_days_later)
  then contacts_with_upcoming_birthdays
         ++ List.filter
              (fun c => (extract_month (bind db) (Contact.birthdate c)
                         =? month seven_days_later)
                        && (extract_day (bind db) (Contact.birthdate c)
                            <=? day seven_days_later))
              (contacts db)
  else contacts_with_upcoming_birthdays.

End repository_contacts.

(** ** repository/users.py *)

Global Instance User_eq_dec : EqDecision User.t.
Proof. solve_decision. Defined.

Module repository_users.

(** [User.email == email].  The argument is whatever Python value the
    caller passes (a form field, or a claim taken out of a token); the
    column is a NOT NULL string, so only a string can equal it. *)
Definition email_is (email : jvalue) (u : User.t) : bool :=
  match email with
  | JStr s => String.eqb (User.email u) s
  | _ => false
  end.

Definition get_user_by_email (email : jvalue) (db : Session) : option User.t :=
  first (List.filter (email_is email) (users db)).

(** [gravatar] is the result of the guarded Gravatar lookup ([None] when it
    raised).  New rows get [refresh_token = NULL] and the column default
    [confirmed = False]. *)
Definition create_user (db : Session) (user : UserCreate.t) (gravatar : option string)
  : User.t * Session :=
  let avatar := gravatar in
  let new_user :=
    User.mk (fresh_id (map User.id (users db)))
            (UserCreate.username user)
            (UserCreate.email user)
            (UserCreate.password user)
            avatar None false in
  (new_user, mkSession (bind db) (users db ++ [new_user]) (contacts db)).

(** An attribute assignment followed by [db.commit()] writes the row the
    object was loaded from. *)
Definition commit_user (old new : User.t) (db : Session) : Session :=
  mkSession (bind db)
            (replace_first (fun r => bool_decide (r = old)) new (users db))
            (contacts db).

Definition set_refresh_token (user : User.t) (token : option token) : User.t :=
  User.mk (User.id user) (User.username user) (User.email user) (User.password user)
          (User.avatar user) token (User.confirmed user).

Definition set_confirmed (user : User.t) (b : bool) : User.t :=
  User.mk (User.id user) (User.username user) (User.email user) (User.password user)
          (User.avatar user) (User.refresh_token user) b.

Definition update_token (user : User.t) (token : option token) (db : Session) : Session :=
  commit_user user (set_refresh_token user token) db.

Definition confirmed_email (email : jvalue) (db : Session) : outcome unit * Session :=
  match get_user_by_email email db with
  | Some user => (Return tt, commit_user user (set_confirmed user true) db)
  | None => (AttributeError "'NoneType' object has no attribute 'confirmed'", db)
  end.

Definition set_avatar (user : User.t) (url : option string) : User.t :=
  User.mk (User.id user) (User.username user) (User.email user) (User.password user)
          url (User.refresh_token user) (User.confirmed user).

Definition update_avatar (email : jvalue) (url : string) (db : Session)
  : outcome User.t * Session :=
  match get_user_by_email email db with
  | Some user =>
      let user' := set_avatar user (Some url) in
      (Return user', commit_user user user' db)
  | None => (AttributeError "'NoneType' object has no attribute 'avatar'", db)
  end.

End repository_users.

(** ** services/rate_limiter.py

    Redis is a map from keys to an integer value and an optional absolute
    expiry time; a key whose expiry has been reached does not exist. *)

Module redis.

Record entry : Type := mkentry { value : Z; expires_at : option Z }.

Definition live (now : Z) (e : entry) : bool :=
  match expires_at e with
  | Some t => now <? t
  | None => true
  end.

Definition get (now : Z) (store : gmap string entry) (key : string) : option Z :=
  match store !! key with
  | Some e => if live now e then Some (value e) else None
  | None => None
  end.

(** [SET key v EX ex] *)
Definition set (now : Z) (store : gmap string entry) (key : string) (v : Z) (ex : Z)
  : gmap string entry :=
  <[key := mkentry v (Some (now + ex))]> store.

(** [INCR key]: a missing key counts from zero and gets no expiry; the
    expiry of an existing key is kept. *)
Definition incr (now : Z) (store : gmap string entry) (key : string)
  : gmap string entry :=
  match store !! key with
  | Some e =>
      if live now e
      then <[key := mkentry (value e + 1) (expires_at e)]> store
      else <[key := mkentry 1 None]> store
  | None => <[key := mkentry 1 None]> store
  end.

(** Remaining time to live as an absolute deadline, [None] when the key
    does not exist or never expires. *)
Definition deadline (now : Z) (store : gmap string entry) (key : string) : option Z :=
  match store !! key with
  | Some e => if live now e then expires_at e else None
  | None => None
  end.

End redis.

Module rate_limiter.

Definition RATE_LIMIT : Z := 5.
Definition TIME_FRAME : Z := 60.

Definition rate_key (user_id : string) : string :=
  String.append "rate_limit:" user_id.

(** [now] is the Redis server clock at the call. *)
Definition limit_rate (now : Z) (redis_client : gmap string redis.entry)
           (user_id : string) : outcome unit * gmap string redis.entry :=
  let key := rate_key user_id in
  let current_count := redis.get now redis_client key in
  match current_count with
  | None => (Return tt, redis.set now redis_client key 1 TIME_FRAME)
  | Some n =>
      if n <? RATE_LIMIT
      then (Return tt, redis.incr now redis_client key)
      else (HTTPException 429 "Too many requests. Please try again later.",
            redis_client)
  end.

(** Successive calls for one identity at the given clock readings. *)
Fixpoint calls (times : list Z) (store : gmap string redis.entry) (user_id : string)
  : list (outcome unit) * gmap string redis.entry :=
  match times with
  | [] => ([], store)
  | t :: times' =>
      let '(r, store') := limit_rate t store user_id in
      let '(rs, store'') := calls times' store' user_id in
      (r :: rs, store'')
  end.

End rate_limiter.

(** ** services/auth.py *)

(** passlib's [CryptContext]: the two operations the code uses. *)
Record CryptContext : Type := mkCryptContext {
  hash : string -> string;
  verify : string -> string -> bool
}.

(** A hashed password verifies against its own hash. *)
Definition sound (ctx : CryptContext) : Prop :=
  forall plain, verify ctx plain (hash ctx plain) = true.

Record Auth : Type := mkAuth {
  pwd_context : CryptContext;
  SECRET_KEY : string;
  ALGORITHM : string
}.

Module services_auth.

Definition minutes (n : Z) : Z := 60 * n.
Definition days (n : Z) : Z := 86400 * n.

(** A [timedelta] in seconds; [timedelta(0)] and [None] are falsy. *)
Definition expiry (now : Z) (expires_delta : option Z) (default : Z) : Z :=
  match expires_delta with
  | Some d => if d =? 0 then now + default else now + d
  | None => now + default
  end.

Definition hash_password (self : Auth) (password : string) : string :=
  hash (pwd_context self) password.

Definition verify_password (self : Auth) (plain_password hashed_password : string)
  : bool :=
  verify (pwd_context self) plain_password hashed_password.

(** [now] is [datetime.utcnow()] in whole seconds. *)
Definition create_access_token (self : Auth) (data : gmap string jvalue)
           (expires_delta : option Z) (now : Z) : token :=
  let to_encode := data in
  let expire := expiry now expires_delta (minutes 30) in
  let to_encode := <["scope" := JStr "access_token"]> (<["exp" := JInt expire]> to_encode) in
  jwt.encode to_encode (SECRET_KEY self) (ALGORITHM self).

Definition create_refresh_token (self : Auth) (data : gmap string jvalue)
           (expires_delta : option Z) (now : Z) : token :=
  let to_encode := data in
  let expire := expiry now expires_delta (days 7) in
  let to_encode := <["scope" := JStr "refresh_token"]> (<["exp" := JInt expire]> to_encode) in
  jwt.encode to_encode (SECRET_KEY self) (ALGORITHM self).

Definition decode_refresh_token (self : Auth) (refresh_token : token) (now : Z)
  : outcome jvalue :=
  match jwt.decode refresh_token (SECRET_KEY self) [ALGORITHM self] now with
  | jwt.Payload payload =>
      match payload !! "scope" with
      | None => KeyError "scope"
      | Some scope =>
          if bool_decide (scope = JStr "refresh_token")
          then match payload !! "sub" with
               | None => KeyError "sub"
               | Some email => Return email
               end
          else HTTPException HTTP_401_UNAUTHORIZED "Invalid scope for token"
      end
  | jwt.JWTError =>
      HTTPException HTTP_401_UNAUTHORIZED "Could not validate credentials"
  end.

(** The [WWW-Authenticate] header of the exception is not represented. *)
Definition credentials_exception {A} : outcome A :=
  HTTPException HTTP_401_UNAUTHORIZED "Could not validate credentials".

Definition get_current_user (self : Auth) (token : token) (db : Session) (now : Z)
  : outcome User.t :=
  match jwt.decode token (SECRET_KEY self) [ALGORITHM self] now with
  | jwt.Payload payload =>
      match payload !! "scope" with
      | None => KeyError "scope"
      | Some scope =>
          if bool_decide (scope = JStr "access_token")
          then match payload !! "sub" with
               | None => KeyError "sub"
               | Some email =>
                   if bool_decide (email = JNull) then credentials_exception
                   else
                     match repository_users.get_user_by_email email db with
                     | None => credentials_exception
                     | Some user => Return user
                     end
               end
          else credentials_exception
      end
  | jwt.JWTError => credentials_exception
  end.

Definition create_email_token (self : Auth) (data : gmap string jvalue) (now : Z)
  : token :=
  let to_encode := data in
  let expire := now + days 7 in
  let to_encode := <["exp" := JInt expire]> (<["iat" := JInt now]> to_encode) in
  jwt.encode to_encode (SECRET_KEY self) (ALGORITHM self).

Definition get_email_from_token (self : Auth) (token : token) (now : Z)
  : outcome jvalue :=
  match jwt.decode token (SECRET_KEY self) [ALGORITHM self] now with
  | jwt.Payload payload =>
      Return (default JNull (payload !! "sub"))
  | jwt.JWTError =>
      HTTPException HTTP_422_UNPROCESSABLE_ENTITY "Invalid token for email verification"
  end.

End services_auth.

(** ** routes/auth.py *)

(** A background task [send_email(email, username, host)]; when it runs it
    mails [create_email_token({"sub": email})]. *)
Record send_email : Type := mk_send_email {
  recipient : string;
  display_name : string;
  host : string
}.

Record TokenModel : Type := mkTokenModel {
  access_token : token;
  refresh_token : token;
  token_type : string
}.

(** Attribute access on the result of [get_user_by_email], which may be
    [None]. *)
Definition getattr {A} (user : option User.t) (field : User.t -> A) (name : string)
  : outcome A :=
  match user with
  | Some u => Return (field u)
  | None =>
      AttributeError
        (String.append "'NoneType' object has no attribute '" (String.append name "'"))
  end.

Module routes_auth.

Definition sub_claim (email : jvalue) : gmap string jvalue := {["sub" := email]}.

Definition register (self : Auth) (user : UserCreate.t) (gravatar : option string)
           (base_url : string) (db : Session)
  : outcome User.t * Session * list send_email :=
  let exist_user := repository_users.get_user_by_email (JStr (UserCreate.email user)) db in
  match exist_user with
  | Some _ => (HTTPException HTTP_409_CONFLICT "Email already registered", db, [])
  | None =>
      let user := UserCreate.mk (UserCreate.username user) (UserCreate.email user)
                    (services_auth.hash_password self (UserCreate.password user)) in
      let '(new_user, db) := repository_users.create_user db user gravatar in
      (Return new_user, db,
       [mk_send_email (User.email new_user) (User.username new_user) base_url])
  end.

Definition login (self : Auth) (db : Session) (username password : string) (now : Z)
  : outcome TokenModel * Session :=
  match repository_users.get_user_by_email (JStr username) db with
  | None => (HTTPException HTTP_401_UNAUTHORIZED "Invalid email", db)
  | Some user =>
      if negb (User.confirmed user)
      then (HTTPException HTTP_401_UNAUTHORIZED "Email not confirmed", db)
      else if negb (services_auth.verify_password self password (User.password user))
      then (HTTPException HTTP_401_UNAUTHORIZED "Invalid password", db)
      else
        let access_token :=
          services_auth.create_access_token self (sub_claim (JStr (User.email user))) None now in
        let refresh_token :=
          services_auth.create_refresh_token self (sub_claim (JStr (User.email user))) None now in
        let db := repository_users.update_token user (Some refresh_token) db in
        (Return (mkTokenModel access_token refresh_token "bearer"), db)
  end.

(** The second component lists the background tasks that were added. *)
Definition request_email (email : string) (base_url : string) (db : Session)
  : outcome string * list send_email :=
  let user := repository_users.get_user_by_email (JStr email) db in
  on_return (getattr user User.confirmed "confirmed") []
    (fun confirmed =>
       if confirmed
       then (Return "Your email is already confirmed", [])
       else
         let background_tasks :=
           match user with
           | Some u => [mk_send_email (User.email u) (User.username u) base_url]
           | None => []
           end in
         (Return "Check your email for confirmation.", background_tasks)).

Definition refresh_token (self : Auth) (credentials : token) (db : Session) (now : Z)
  : outcome TokenModel * Session :=
  let token := credentials in
  on_return (services_auth.decode_refresh_token self token now) db
    (fun email =>
       match repository_users.get_user_by_email email db with
       | None =>
           (AttributeError "'NoneType' object has no attribute 'refresh_token'", db)
       | Some user =>
           if negb (bool_decide (User.refresh_token user = Some token))
           then
             let db := repository_users.update_token user None db in
             (HTTPException HTTP_401_UNAUTHORIZED "Invalid refresh token", db)
           else
             let access_token :=
               services_auth.create_access_token self (sub_claim email) None now in
             let refresh_token :=
               services_auth.create_refresh_token self (sub_claim email) None now in
             let db := repository_users.update_token user (Some refresh_token) db in
             (Return (mkTokenModel access_token refresh_token "bearer"), db)
       end).

Definition confirmed_email (self : Auth) (token : token) (db : Session) (now : Z)
  : outcome string * Session :=
  on_return (services_auth.get_email_from_token self token now) db
    (fun email =>
       match repository_users.get_user_by_email email db with
       | None => (HTTPException HTTP_400_BAD_REQUEST "Verification error", db)
       | Some user =>
           if User.confirmed user
           then (Return "Your email is already confirmed", db)
           else
             let '(r, db) := repository_users.confirmed_email email db in
             on_return r db (fun _ => (Return "Email confirmed", db))
       end).

End routes_auth.

(** ** routes/contacts.py

    Every handler depends on [auth_services.get_current_user]: the bearer
    token is resolved first and the body runs only if that returns.  [now]
    is the application clock, [redis_now] the Redis server clock.  The
    state of [create_contact] is the database together with the Redis
    store; the other handlers touch the database only. *)

Module routes_contacts.

Definition not_found {A} : outcome A :=
  HTTPException HTTP_404_NOT_FOUND "Contact not found".

Definition create_contact (self : Auth) (token : token) (contact : ContactCreate.t)
           (db : Session) (redis_client : gmap string redis.entry) (now redis_now : Z)
  : outcome Contact.t * (Session * gmap string redis.entry) :=
  on_return (services_auth.get_current_user self token db now) (db, redis_client)
    (fun current_user =>
       let '(limited, redis_client) :=
         rate_limiter.limit_rate redis_now redis_client (str (User.id current_user)) in
       on_return limited (db, redis_client)
         (fun _ =>
            let '(db_contact, db) :=
              repository_contacts.create_contact db contact current_user in
            (Return db_contact, (db, redis_client)))).

Definition get_contacts_birthday_next_7_days (self : Auth) (token : token) (db : Session)
           (now : Z) (today : date) : outcome (list Contact.t) :=
  and_then (services_auth.get_current_user self token db now)
    (fun current_user =>
       Return (repository_contacts.get_upcoming_birthdays today db current_user)).

Definition search_contacts (self : Auth) (token : token)
           (first_name second_name email : option string) (db : Session) (now : Z)
  : outcome (list Contact.t) :=
  and_then (services_auth.get_current_user self token db now)
    (fun current_user =>
       Return (repository_contacts.search_contacts db current_user
                 first_name second_name email)).

Definition read_contact (self : Auth) (token : token) (contact_id : Z) (db : Session)
           (now : Z) : outcome Contact.t :=
  and_then (services_auth.get_current_user self token db now)
    (fun current_user =>
       match repository_contacts.get_contact db contact_id current_user with
       | None => not_found
       | Some db_contact => Return db_contact
       end).

(** [.all()] returns a list, never [None]: the 404 branch of the source
    cannot be taken. *)
Definition read_contacts (self : Auth) (token : token) (skip limit : nat) (db : Session)
           (now : Z) : outcome (list Contact.t) :=
  and_then (services_auth.get_current_user self token db now)
    (fun current_user =>
       Return (repository_contacts.get_contacts db current_user skip limit)).

Definition update_contact (self : Auth) (token : token) (contact_id : Z)
           (contact_update : ContactCreate.t) (db : Session) (now : Z)
  : outcome Contact.t * Session :=
  on_return (services_auth.get_current_user self token db now) db
    (fun current_user =>
       let '(db_contact, db) :=
         repository_contacts.upgrade_contact db current_user contact_id contact_update in
       match db_contact with
       | None => (not_found, db)
       | Some db_contact => (Return db_contact, db)
       end).

Definition delete_contact (self : Auth) (token : token) (contact_id : Z) (db : Session)
           (now : Z) : outcome Contact.t * Session :=
  on_return (services_auth.get_current_user self token db now) db
    (fun current_user =>
       let '(db_contact, db) :=
         repository_contacts.delete_contact db current_user contact_id in
       match db_contact with
       | None => (not_found, db)
       | Some db_contact => (Return db_contact, db)
       end).

End routes_contacts.

(** ** routes/users.py

    [src_url] is the URL built from the image host's answer to the upload. *)

Module routes_users.

Definition read_users_me (self : Auth) (token : token) (db : Session) (now : Z)
  : outcome User.t :=
  services_auth.get_current_user self token db now.

Definition update_avatar_user (self : Auth) (token : token) (src_url : string)
           (db : Session) (now : Z) : outcome User.t * Session :=
  on_return (services_auth.get_current_user self token db now) db
    (fun current_user =>
       repository_users.update_avatar (JStr (User.email current_user)) src_url db).

End routes_users.

(** ** services/email.py

    Running a [send_email] task at time [now] builds the message below and
    hands it to the mail server; a connection error is printed and
    swallowed, so the task itself never raises. *)

Module services_email.

Record MessageSchema : Type := mkMessage {
  subject : string;
  recipients : list string;
  template_host : string;
  template_username : string;
  template_token : token
}.

Definition message (self : Auth) (task : send_email) (now : Z) : MessageSchema :=
  let token_verification :=
    services_auth.create_email_token self {["sub" := JStr (recipient task)]} now in
  mkMessage "Confirm your email" [recipient task] (host task) (display_name task)
            token_verification.

End services_email.

(** ** The authentication endpoints as a state machine

    A request carries the clock reading at which it is served; the state is
    the database. *)

Module api.

Inductive request : Type :=
| Register (user : UserCreate.t) (gravatar : option string) (base_url : string)
| Login (username password : string)
| RequestEmail (email base_url : string)
| RefreshToken (credentials : token)
| ConfirmedEmail (token : token).

Definition handle (self : Auth) (now : Z) (r : request) (db : Session) : Session :=
  match r with
  | Register user gravatar base_url =>
      snd (fst (routes_auth.register self user gravatar base_url db))
  | Login username password => snd (routes_auth.login self db username password now)
  | RequestEmail _ _ => db
  | RefreshToken credentials => snd (routes_auth.refresh_token self credentials db now)
  | ConfirmedEmail token => snd (routes_auth.confirmed_email self token db now)
  end.

Fixpoint run (self : Auth) (trace : list (Z * request)) (db : Session) : Session :=
  match trace with
  | [] => db
  | (now, r) :: trace' => run self trace' (handle self now r db)
  end.

End api.

(** * Specification-side notions *)

Module spec.

(** [same_case d x c]: the two characters are equal once the backend has
    lower-cased them. *)
Definition same_case (d : dialect) (x c : ascii) : bool :=
  Ascii.eqb (fold_char d x) (fold_char d c).

(** [text_matches same a b]: [a] and [b] have the same length and agree
    position by position. *)
Fixpoint text_matches (same : ascii -> ascii -> bool) (a b : string) : bool :=
  match a, b with
  | EmptyString, EmptyString => true
  | String x a', String c b' => same x c && text_matches same a' b'
  | _, _ => false
  end.

Fixpoint prefixb (same : ascii -> ascii -> bool) (p s : string) : bool :=
  match p with
  | EmptyString => true
  | String c p' =>
      match s with
      | EmptyString => false
      | String x s' => same x c && prefixb same p' s'
      end
  end.

(** [infixb same needle hay]: [needle] occurs in [hay] as a contiguous run. *)
Fixpoint infixb (same : ascii -> ascii -> bool) (needle hay : string) : bool :=
  prefixb same needle hay
  || match hay with
     | EmptyString => false
     | String _ hay' => infixb same needle hay'
     end.

(** Case-insensitive substring match: some run of [hay] equals [needle]
    up to the case of its letters. *)
Definition icontains (d : dialect) (needle hay : string) : bool :=
  infixb (same_case d) needle hay.

(** Characters with a special meaning in a LIKE pattern. *)
Definition is_meta (d : dialect) (c : ascii) : bool :=
  Ascii.eqb c percent || Ascii.eqb c underscore
  || (Ascii.eqb c backslash && backslash_escapes d).

Fixpoint literal (d : dialect) (s : string) : bool :=
  match s with
  | EmptyString => true
  | String c s' => negb (is_meta d c) && literal d s'
  end.

(** The constraint a search argument imposes on a column when every
    argument is read as a substring filter; an absent argument imposes
    none. *)
Definition satisfies (d : dialect) (arg : option string) (column : string) : bool :=
  match arg with
  | Some f => icontains d f column
  | None => true
  end.

Definition search_matches (d : dialect) (user : User.t)
           (first_name second_name email : option string) (c : Contact.t) : bool :=
  repository_contacts.owned_by user c
  && satisfies d first_name (Contact.first_name c)
  && satisfies d second_name (Contact.second_name c)
  && satisfies d email (Contact.email c).

(** The constraint one search argument imposes, filter by filter: none
    when absent, the substring test when it has no LIKE metacharacter, the
    LIKE match of [%f%] otherwise. *)
Definition filter_holds (d : dialect) (arg : option string) (column : string) : bool :=
  match arg with
  | None => true
  | Some f =>
      if literal d f then icontains d f column
      else ilike d column (repository_contacts.contains_pattern f)
  end.

Definition found (d : dialect) (user : User.t)
           (first_name second_name email : option string) (c : Contact.t) : bool :=
  repository_contacts.owned_by user c
  && filter_holds d first_name (Contact.first_name c)
  && filter_holds d second_name (Contact.second_name c)
  && filter_holds d email (Contact.email c).

(** Rows of other owners (or of none). *)
Definition foreign (user : User.t) (c : Contact.t) : bool :=
  negb (repository_contacts.owned_by user c).

(** A birthdate with the month and the day the backend extracts from it. *)
Definition as_read (d : dialect) (b : date) : date :=
  mkdate (year b) (extract_month d b) (extract_day d b).

(** Month/day window of the non-rollover case: same month, day between
    today's and today's plus seven. *)
Definition in_same_month_window (today : date) (b : date) : bool :=
  (month b =? month today) && (day today <=? day b) && (day b <=? day today + 7).

(** The [confirmed] flag of the user registered under [email], [false]
    when there is none. *)
Definition is_confirmed (email : string) (db : Session) : bool :=
  match repository_users.get_user_by_email (JStr email) db with
  | Some u => User.confirmed u
  | None => false
  end.

(** A user row without its refresh token. *)
Definition without_token (u : User.t) : User.t :=
  repository_users.set_refresh_token u None.

(** A user row without its avatar. *)
Definition without_avatar (u : User.t) : User.t :=
  repository_users.set_avatar u None.

Definition following_month (m : Z) : Z := if m <? 12 then m + 1 else 1.

(** The part of the window that lies in the following month. *)
Definition in_next_month_window (today : date) (b : date) : bool :=
  (month b =? following_month (month today))
  && (day b <=? day today + 7 - days_in_month (year today) (month today)).

End spec.

(** * Sample data used by the closed examples *)

Module sample.

Definition alice : User.t := User.mk 1 "alice" "alice@example.com" "h1" None None true.
Definition bob : User.t := User.mk 2 "bob" "bob@example.com" "h2" None None true.

Definition contact (id : Z) (name : string) (owner : User.t) (m d : Z) : Contact.t :=
  Contact.mk id name "Doe" (String.append name "@example.com") "555"
             (mkdate 1990 m d) None (Some (User.id owner)).

Definition jan29 := contact 1 "Ann" alice 1 29.
Definition jan30 := contact 2 "Ben" alice 1 30.
Definition feb02 := contact 3 "Cid" alice 2 2.
Definition feb05 := contact 4 "Dee" alice 2 5.
Definition mar01 := contact 5 "Eve" alice 3 1.

Definition today : date := mkdate 2024 1 28.

Definition db : Session :=
  mkSession (postgresql lower_ascii) [alice; bob] [jan29; jan30; feb02; feb05; mar01].

Definition empty_db : Session := mkSession (postgresql lower_ascii) [alice; bob] [].

(** A stand-in password scheme: the hash tags the password. *)
Definition ctx : CryptContext :=
  mkCryptContext (fun plain => String.append "$2b$" plain)
                 (fun plain hashed => String.eqb hashed (String.append "$2b$" plain)).

Definition auth : Auth := mkAuth ctx "s3cret" "HS256".

Definition carol : UserCreate.t := UserCreate.mk "carol" "carol@example.com" "pw".

(** Alice after a login at time 1000, and a second refresh token for her
    minted at time 1500 that is not the stored one. *)
Definition stored_token : token :=
  services_auth.create_refresh_token auth (routes_auth.sub_claim (JStr "alice@example.com"))
                                     None 1000.
Definition other_token : token :=
  services_auth.create_refresh_token auth (routes_auth.sub_claim (JStr "alice@example.com"))
                                     None 1500.
Definition alice_logged_in : User.t :=
  repository_users.set_refresh_token alice (Some stored_token).
Definition session_db : Session := mkSession (postgresql lower_ascii) [alice_logged_in; bob] [].

(** A confirmed user whose stored password is the hash of ["pw"]. *)
Definition dave : User.t :=
  User.mk 3 "dave" "dave@example.com" (hash ctx "pw") None None true.
Definition auth_db : Session := mkSession (postgresql lower_ascii) [dave] [jan29].

(** Bearer tokens issued at time 1000. *)
Definition alice_access : token :=
  services_auth.create_access_token auth {["sub" := JStr "alice@example.com"]} None 1000.
Definition bob_access : token :=
  services_auth.create_access_token auth {["sub" := JStr "bob@example.com"]} None 1000.

Definition new_contact : ContactCreate.t :=
  ContactCreate.mk "Cid" "Doe" "cid@example.com" "555" (mkdate 1990 2 2) None.

Definition too_many : outcome unit :=
  HTTPException 429 "Too many requests. Please try again later.".

(** Outcomes of [k] further calls inside a window whose counter reads [n]. *)
Fixpoint window_outcomes (n : Z) (k : nat) : list (outcome unit) :=
  match k with
  | O => []
  | S k' =>
      if n <? rate_limiter.RATE_LIMIT
      then Return tt :: window_outcomes (n + 1) k'
      else too_many :: window_outcomes n k'
  end.

(** The lower-casing of a Latin-1 locale: the letters A-Z and the
    accented capitals (codes 192 to 222, the multiplication sign apart). *)
Definition latin1_lower (c : ascii) : ascii :=
  let n := nat_of_ascii c in
  if ((Nat.leb 65 n && Nat.leb n 90)
      || (Nat.leb 192 n && Nat.leb n 222 && negb (Nat.eqb n 215)))%bool
  then ascii_of_nat (n + 32) else c.

(** A first name starting with a capital E acute (code 201) and a filter
    starting with a small e acute (code 233). *)
Definition elodie : string := String (ascii_of_nat 201) "lodie".
Definition elo : string := String (ascii_of_nat 233) "lo".

End sample.

(** * Properties *)

(** ** Rate limiter *)

Section RateLimiter.

Import rate_limiter.

Variable user_id : string.
Let key := rate_key user_id.

Lemma limit_rate_fresh now (store : gmap string redis.entry) :
  redis.get now store key = None ->
  limit_rate now store user_id
  = (Return tt, <[key := redis.mkentry 1 (Some (now + TIME_FRAME))]> store).
Proof.
  intros H. unfold limit_rate. fold key. rewrite H. reflexivity.
Qed.

Lemma limit_rate_counting now (store : gmap string redis.entry) n e :
  store !! key = Some (redis.mkentry n (Some e)) ->
  now < e -> n < RATE_LIMIT ->
  limit_rate now store user_id
  = (Return tt, <[key := redis.mkentry (n + 1) (Some e)]> store).
Proof.
  intros H Hl Hn. unfold limit_rate, redis.get, redis.incr, redis.live. fold key.
  rewrite H. simpl.
  destruct (Z.ltb_spec now e); [|lia].
  destruct (Z.ltb_spec n RATE_LIMIT); [|lia]. reflexivity.
Qed.

Lemma limit_rate_full now (store : gmap string redis.entry) n e :
  store !! key = Some (redis.mkentry n (Some e)) ->
  now < e -> RATE_LIMIT <= n ->
  limit_rate now store user_id = (sample.too_many, store).
Proof.
  intros H Hl Hn. unfold limit_rate, redis.get, redis.live. fold key.
  rewrite H. simpl.
  destruct (Z.ltb_spec now e); [|lia].
  destruct (Z.ltb_spec n RATE_LIMIT); [lia|]. reflexivity.
Qed.

Lemma limit_rate_expired now (store : gmap string redis.entry) n e :
  store !! key = Some (redis.mkentry n (Some e)) ->
  e <= now ->
  redis.get now store key = None.
Proof.
  intros H Hl. unfold redis.get, redis.live. rewrite H. simpl.
  destruct (Z.ltb_spec now e); [lia|]. reflexivity.
Qed.

Lemma calls_in_window times : forall (store : gmap string redis.entry) n e,
  store !! key = Some (redis.mkentry n (Some e)) ->
  Forall (fun t => t < e) times ->
  exists store' n',
    calls times store user_id = (sample.window_outcomes n (length times), store')
    /\ store' !! key = Some (redis.mkentry n' (Some e)).
Proof.
  induction times as [|t times IH]; intros store n e Hk Hall.
  - exists store, n. split; [reflexivity | exact Hk].
  - inversion Hall as [|? ? Ht Hall']; subst.
    cbn [calls length sample.window_outcomes].
    destruct (Z.ltb_spec n RATE_LIMIT) as [Hn|Hn].
    + rewrite (limit_rate_counting t store n e Hk Ht Hn).
      destruct (IH (<[key := redis.mkentry (n + 1) (Some e)]> store) (n + 1) e)
        as (store' & n' & Hc & Hk'); [apply lookup_insert_eq | exact Hall' |].
      rewrite Hc. exists store', n'. split; [reflexivity | exact Hk'].
    + rewrite (limit_rate_full t store n e Hk Ht Hn).
      destruct (IH store n e Hk Hall') as (store' & n' & Hc & Hk').
      rewrite Hc. exists store', n'. split; [reflexivity | exact Hk'].
Qed.

(** C3. Starting from an absent (or expired) counter, five calls inside
    the 60-second window succeed, the sixth call inside the window is
    rejected with HTTP 429, and a call made once the window has elapsed
    succeeds again. *)
Theorem limit_rate_five_per_window (store : gmap string redis.entry)
        (t1 t2 t3 t4 t5 t6 t7 : Z) :
  redis.get t1 store (rate_key user_id) = None ->
  t1 <= t2 -> t2 <= t3 -> t3 <= t4 -> t4 <= t5 -> t5 <= t6 ->
  t6 < t1 + TIME_FRAME ->
  t1 + TIME_FRAME <= t7 ->
  exists store',
    calls [t1; t2; t3; t4; t5; t6] store user_id
    = ([Return tt; Return tt; Return tt; Return tt; Return tt;
        HTTPException 429 "Too many requests. Please try again later."], store')
    /\ fst (limit_rate t7 store' user_id) = Return tt.
Proof.
  intros Hnone H12 H23 H34 H45 H56 H6 H7. fold key in Hnone.
  cbn [calls]. rewrite (limit_rate_fresh t1 store Hnone).
  destruct (calls_in_window [t2; t3; t4; t5; t6]
              (<[key := redis.mkentry 1 (Some (t1 + TIME_FRAME))]> store)
              1 (t1 + TIME_FRAME))
    as (store' & n' & Hc & Hk).
  { apply lookup_insert_eq. }
  { repeat constructor; lia. }
  cbn [calls] in Hc. cbn [calls]. 
  destruct (limit_rate t2 _ user_id) as [r2 s2].
  destruct (limit_rate t3 s2 user_id) as [r3 s3].
  destruct (limit_rate t4 s3 user_id) as [r4 s4].
  destruct (limit_rate t5 s4 user_id) as [r5 s5].
  destruct (limit_rate t6 s5 user_id) as [r6 s6].
  vm_compute in Hc. injection Hc as -> -> -> -> -> ->.
  exists store'. split; [reflexivity|].
  rewrite (limit_rate_fresh t7 store'); [reflexivity|].
  eapply limit_rate_expired; [exact Hk | exact H7].
Qed.

Lemma deadline_of_entry now (store : gmap string redis.entry) k n e :
  store !! k = Some (redis.mkentry n (Some e)) -> now < e ->
  redis.deadline now store k = Some e.
Proof.
  intros H Hl. unfold redis.deadline, redis.live. rewrite H. simpl.
  destruct (Z.ltb_spec now e); [reflexivity | lia].
Qed.

Lemma limit_rate_keeps_deadline now (store : gmap string redis.entry) n :
  redis.get now store key = Some n ->
  redis.deadline now (snd (limit_rate now store user_id)) key
  = redis.deadline now store key.
Proof.
  intros H. unfold limit_rate. fold key. rewrite H.
  unfold redis.get in H. unfold redis.incr, redis.deadline.
  destruct (store !! key) as [en|] eqn:Hk; [|discriminate].
  destruct (redis.live now en) eqn:Hlive; [|discriminate].
  destruct (n <? RATE_LIMIT); cbn [snd].
  - rewrite lookup_insert_eq. unfold redis.live in *. cbn [redis.expires_at].
    rewrite Hlive. reflexivity.
  - rewrite Hk, Hlive. reflexivity.
Qed.

(** C8. The expiry is written only when the counter is created: a call
    that finds no counter sets the deadline to [now + 60]; a call that
    finds a counter (whether it increments or rejects) leaves the
    deadline as it was.  Hence after a first request at [t1] and any
    further calls inside the window the deadline is still [t1 + 60]. *)
Theorem limit_rate_expiry_set_once (store : gmap string redis.entry) (now : Z) :
  match redis.get now store (rate_key user_id) with
  | None =>
      redis.deadline now (snd (limit_rate now store user_id)) (rate_key user_id)
      = Some (now + TIME_FRAME)
  | Some _ =>
      redis.deadline now (snd (limit_rate now store user_id)) (rate_key user_id)
      = redis.deadline now store (rate_key user_id)
  end
  /\ forall times t,
       redis.get now store (rate_key user_id) = None ->
       Forall (fun t' => now <= t' < now + TIME_FRAME) times ->
       t < now + TIME_FRAME ->
       redis.deadline t (snd (calls (now :: times) store user_id)) (rate_key user_id)
       = Some (now + TIME_FRAME).
Proof.
  fold key. split.
  - destruct (redis.get now store key) as [n|] eqn:Hg.
    + exact (limit_rate_keeps_deadline now store n Hg).
    + rewrite (limit_rate_fresh now store Hg). cbn [snd].
      apply (deadline_of_entry now _ key 1); [apply lookup_insert_eq|].
      unfold TIME_FRAME. lia.
  - intros times t Hg Hall Ht. cbn [calls].
    rewrite (limit_rate_fresh now store Hg).
    destruct (calls_in_window times
                (<[key := redis.mkentry 1 (Some (now + TIME_FRAME))]> store)
                1 (now + TIME_FRAME))
      as (store' & n' & Hc & Hk).
    { apply lookup_insert_eq. }
    { eapply Forall_impl; [exact Hall|]. cbv beta. intros; lia. }
    rewrite Hc. cbn [snd].
    exact (deadline_of_entry t store' key n' _ Hk Ht).
Qed.

End RateLimiter.

Lemma limit_rate_five_per_window_witness :
  exists store',
    rate_limiter.calls [0; 10; 20; 30; 40; 59] ∅ "1"
    = ([Return tt; Return tt; Return tt; Return tt; Return tt;
        HTTPException 429 "Too many requests. Please try again later."], store')
    /\ fst (rate_limiter.limit_rate 60 store' "1") = Return tt.
Proof.
  apply (limit_rate_five_per_window "1" ∅ 0 10 20 30 40 59 60);
    first [reflexivity | unfold rate_limiter.TIME_FRAME; lia].
Defined.

Lemma limit_rate_expiry_set_once_witness :
  redis.deadline 59
    (snd (rate_limiter.calls [0; 10; 20; 30; 40; 50; 58] ∅ "1"))
    (rate_limiter.rate_key "1")
  = Some 60.
Proof.
  apply (proj2 (limit_rate_expiry_set_once "1" ∅ 0) [10; 20; 30; 40; 50; 58] 59).
  - reflexivity.
  - repeat constructor; unfold rate_limiter.TIME_FRAME; lia.
  - unfold rate_limiter.TIME_FRAME; lia.
Defined.

(** ** Contact queries *)

Section ContactScoping.

Import repository_contacts.

Lemma first_In {A} (rows : list A) x : first rows = Some x -> In x rows.
Proof. destruct rows; simpl; [discriminate|]. intros [= ->]. now left. Qed.

Lemma In_skipn {A} n (rows : list A) x : In x (skipn n rows) -> In x rows.
Proof.
  revert rows. induction n as [|n IH]; intros [|r rows]; simpl; auto.
Qed.

Lemma In_firstn {A} n (rows : list A) x : In x (firstn n rows) -> In x rows.
Proof.
  revert rows. induction n as [|n IH]; intros [|r rows]; simpl; auto.
  - contradiction.
  - intros [->|H]; auto.
Qed.

Lemma first_filter_In {A} (p : A -> bool) rows x :
  first (List.filter p rows) = Some x -> In x rows /\ p x = true.
Proof. intros H. apply first_In in H. now apply filter_In in H. Qed.

Lemma is_row_owned contact_id user c :
  is_row contact_id user c = true -> owned_by user c = true.
Proof. unfold is_row. intros H. now apply andb_true_iff in H. Qed.

Lemma opt_filter_incl d arg column query c :
  In c (opt_filter d arg column query) -> In c query.
Proof.
  unfold opt_filter. destruct arg as [f|]; [|auto].
  destruct (truthy (Some f)); [|auto]. intros H. now apply filter_In in H.
Qed.

Lemma get_contacts_scoped db user skip limit c :
  In c (get_contacts db user skip limit) ->
  In c (contacts db) /\ owned_by user c = true.
Proof.
  unfold get_contacts. intros H.
  apply In_firstn, In_skipn in H. now apply filter_In in H.
Qed.

Lemma get_contact_scoped db contact_id user c :
  get_contact db contact_id user = Some c ->
  In c (contacts db) /\ owned_by user c = true /\ Contact.id c = contact_id.
Proof.
  unfold get_contact. intros H. apply first_filter_In in H as [Hin Hrow].
  split; [exact Hin|]. unfold is_row in Hrow.
  apply andb_true_iff in Hrow as [Hid Ho]. split; [exact Ho | lia].
Qed.

Lemma search_contacts_scoped db user fn sn em c :
  In c (search_contacts db user fn sn em) ->
  In c (contacts db) /\ owned_by user c = true.
Proof.
  unfold search_contacts. intros H.
  do 3 apply opt_filter_incl in H. now apply filter_In in H.
Qed.

(** Rows that do not satisfy the selecting predicate survive a write-back
    unchanged, in place. *)
Lemma replace_first_frame {A} (p q : A -> bool) x rows :
  (forall r, p r = true -> q r = false) -> q x = false ->
  List.filter q (replace_first p x rows) = List.filter q rows.
Proof.
  intros Hpq Hx. induction rows as [|r rows IH]; simpl; [reflexivity|].
  destruct (p r) eqn:Hp; simpl.
  - rewrite Hx, (Hpq r Hp). reflexivity.
  - rewrite IH. reflexivity.
Qed.

Lemma remove_first_frame {A} (p q : A -> bool) rows :
  (forall r, p r = true -> q r = false) ->
  List.filter q (remove_first p rows) = List.filter q rows.
Proof.
  intros Hpq. induction rows as [|r rows IH]; simpl; [reflexivity|].
  destruct (p r) eqn:Hp; simpl.
  - rewrite (Hpq r Hp). reflexivity.
  - rewrite IH. reflexivity.
Qed.

Lemma upgrade_contact_scoped db user contact_id contact :
  (forall c, fst (upgrade_contact db user contact_id contact) = Some c ->
             owned_by user c = true /\ Contact.id c = contact_id)
  /\ List.filter (spec.foreign user) (contacts (snd (upgrade_contact db user contact_id contact)))
     = List.filter (spec.foreign user) (contacts db).
Proof.
  unfold upgrade_contact.
  destruct (first (List.filter (is_row contact_id user) (contacts db))) as [old|] eqn:Hf;
    cbn [fst snd contacts].
  - apply first_filter_In in Hf as [Hin Hrow].
    pose proof (is_row_owned _ _ _ Hrow) as Ho.
    unfold is_row in Hrow. apply andb_true_iff in Hrow as [Hid _].
    split.
    + intros c [= <-]. unfold owned_by in *. cbn. split; [exact Ho | lia].
    + apply replace_first_frame.
      * intros r Hr. unfold spec.foreign. now rewrite (is_row_owned _ _ _ Hr).
      * unfold spec.foreign, owned_by in *. cbn. now rewrite Ho.
  - split; [discriminate | reflexivity].
Qed.

Lemma delete_contact_scoped db user contact_id :
  (forall c, fst (delete_contact db user contact_id) = Some c ->
             In c (contacts db) /\ owned_by user c = true /\ Contact.id c = contact_id)
  /\ List.filter (spec.foreign user) (contacts (snd (delete_contact db user contact_id)))
     = List.filter (spec.foreign user) (contacts db).
Proof.
  unfold delete_contact.
  destruct (first (List.filter (is_row contact_id user) (contacts db))) as [old|] eqn:Hf;
    cbn [fst snd contacts].
  - split.
    + intros c [= <-]. apply (get_contact_scoped db contact_id user old Hf).
    + apply remove_first_frame.
      intros r Hr. unfold spec.foreign. now rewrite (is_row_owned _ _ _ Hr).
  - split; [discriminate | reflexivity].
Qed.

(** Without a month rollover the birthday query is the scoped single
    query. *)
Lemma get_upcoming_birthdays_scoped_same_month today db user c :
  month today = month (add_days today 7) ->
  In c (get_upcoming_birthdays today db user) ->
  In c (contacts db) /\ owned_by user c = true.
Proof.
  intros Hm. unfold get_upcoming_birthdays. rewrite <- Hm, Z.eqb_refl. cbn [negb].
  intros H. apply filter_In in H as [Hin Hp]. split; [exact Hin|].
  repeat (apply andb_true_iff in Hp as [Hp _]). exact Hp.
Qed.

End ContactScoping.

(** ** Calendar arithmetic *)

Section Calendar.

Lemma days_in_month_bounds y m : 28 <= days_in_month y m <= 31.
Proof.
  unfold days_in_month.
  destruct (m =? 2); [destruct (is_leap y); lia|].
  destruct ((m =? 4) || (m =? 6) || (m =? 9) || (m =? 11)); lia.
Qed.

Lemma iter_next_day_same_month n : forall d,
  day d + Z.of_nat n <= days_in_month (year d) (month d) ->
  Nat.iter n next_day d = mkdate (year d) (month d) (day d + Z.of_nat n).
Proof.
  induction n as [|n IH]; intros d Hd.
  - destruct d as [y m dd]. cbn. f_equal. lia.
  - change (Nat.iter (S n) next_day d) with (next_day (Nat.iter n next_day d)).
    rewrite IH by lia. unfold next_day. cbn [year month day].
    destruct (Z.ltb_spec (day d + Z.of_nat n) (days_in_month (year d) (month d))); [|lia].
    f_equal. lia.
Qed.

(** Seven days after a valid date: same month while the month has room,
    otherwise the first days of the following month (January of the next
    year after December). *)
Lemma add_days_7 d :
  valid_date d ->
  add_days d 7
  = if day d + 7 <=? days_in_month (year d) (month d)
    then mkdate (year d) (month d) (day d + 7)
    else if month d <? 12
         then mkdate (year d) (month d + 1) (day d + 7 - days_in_month (year d) (month d))
         else mkdate (year d + 1) 1 (day d + 7 - days_in_month (year d) (month d)).
Proof.
  intros [Hm Hd]. unfold add_days.
  pose proof (days_in_month_bounds (year d) (month d)) as Hb.
  destruct (Z.leb_spec (day d + 7) (days_in_month (year d) (month d))) as [Hle|Hgt].
  - rewrite iter_next_day_same_month by (cbn; lia). f_equal.
  - set (dim := days_in_month (year d) (month d)) in *.
    set (k := Z.to_nat (dim - day d)).
    assert (Hk : (7 = (6 - k) + (1 + k))%nat) by (unfold k; lia).
    rewrite Hk, Nat.iter_add.
    change (Nat.iter (1 + k) next_day d) with (next_day (Nat.iter k next_day d)).
    rewrite (iter_next_day_same_month k d) by (fold dim; unfold k; lia).
    replace (day d + Z.of_nat k) with dim by (unfold k; lia).
    unfold next_day at 1 2. cbn [year month day]. fold dim.
    rewrite Z.ltb_irrefl.
    destruct (month d <? 12).
    + rewrite iter_next_day_same_month; cbn [year month day].
      * f_equal. unfold k. lia.
      * pose proof (days_in_month_bounds (year d) (month d + 1)). unfold k. lia.
    + rewrite iter_next_day_same_month; cbn [year month day].
      * f_equal. unfold k. lia.
      * pose proof (days_in_month_bounds (year d + 1) 1). unfold k. lia.
Qed.

End Calendar.

(** ** Upcoming birthdays *)

Section Birthdays.

Import repository_contacts.

Lemma filter_none {A} (p : A -> bool) rows :
  (forall x, p x = false) -> List.filter p rows = [].
Proof.
  intros H. induction rows as [|r rows IH]; simpl; [reflexivity|].
  now rewrite H.
Qed.

(** When the seven days stay inside the current month, the result is
    exactly the caller's contacts whose birthday month is the current one
    and whose day lies in [D, D+7]. *)
Lemma get_upcoming_birthdays_same_month today db user :
  valid_date today ->
  day today + 7 <= days_in_month (year today) (month today) ->
  get_upcoming_birthdays today db user
  = List.filter (fun c => owned_by user c
                          && spec.in_same_month_window
                               today (spec.as_read (bind db) (Contact.birthdate c)))
                (contacts db).
Proof.
  intros Hv Hle. unfold get_upcoming_birthdays. rewrite (add_days_7 today Hv).
  destruct (Z.leb_spec (day today + 7) (days_in_month (year today) (month today)));
    [|lia].
  cbn [month day]. rewrite Z.eqb_refl. cbn [negb].
  apply filter_ext. intros c. unfold spec.in_same_month_window, spec.as_read.
  cbn [month day]. rewrite Z.geb_leb. now rewrite !andb_assoc.
Qed.

(** When the seven days cross into the following month, the first query
    selects nothing (its day range [D, D+7-len] is empty) and the second
    query, which has no owner condition, selects every stored contact of
    the following month up to day D+7-len. *)
Lemma get_upcoming_birthdays_rollover today db user :
  valid_date today ->
  days_in_month (year today) (month today) < day today + 7 ->
  get_upcoming_birthdays today db user
  = List.filter (fun c => spec.in_next_month_window
                            today (spec.as_read (bind db) (Contact.birthdate c)))
                (contacts db).
Proof.
  intros Hv Hgt. unfold get_upcoming_birthdays. rewrite (add_days_7 today Hv).
  pose proof (days_in_month_bounds (year today) (month today)) as Hb.
  destruct Hv as [Hm Hd].
  destruct (Z.leb_spec (day today + 7) (days_in_month (year today) (month today)));
    [lia|].
  unfold spec.in_next_month_window, spec.following_month, spec.as_read.
  destruct (Z.ltb_spec (month today) 12) as [H12|H12]; cbn [month day].
  - destruct (Z.eqb_spec (month today) (month today + 1)); [lia|]. cbn [negb].
    rewrite filter_none; [reflexivity|].
    intros c. rewrite Z.geb_leb.
    destruct (Z.leb_spec (day today) (extract_day (bind db) (Contact.birthdate c)));
      destruct (Z.leb_spec (extract_day (bind db) (Contact.birthdate c))
                  (day today + 7 - days_in_month (year today) (month today)));
      rewrite ?andb_false_r; try reflexivity; lia.
  - destruct (Z.eqb_spec (month today) 1); [lia|]. cbn [negb].
    rewrite filter_none; [reflexivity|].
    intros c. rewrite Z.geb_leb.
    destruct (Z.leb_spec (day today) (extract_day (bind db) (Contact.birthdate c)));
      destruct (Z.leb_spec (extract_day (bind db) (Contact.birthdate c))
                  (day today + 7 - days_in_month (year today) (month today)));
      rewrite ?andb_false_r; try reflexivity; lia.
Qed.

(** C2. On 2024-01-28, for an owner whose contacts have birthdays on
    01-29, 01-30, 02-02, 02-05 and 03-01, the query returns the 02-02
    contact only: 02-05 and 03-01 are left out, and so are 01-29 and
    01-30, which lie inside the next seven days. *)
Theorem get_upcoming_birthdays_rollover_example :
  get_upcoming_birthdays sample.today sample.db sample.alice = [sample.feb02]
  /\ ~ In sample.jan29 (get_upcoming_birthdays sample.today sample.db sample.alice)
  /\ ~ In sample.jan30 (get_upcoming_birthdays sample.today sample.db sample.alice).
Proof.
  assert (H : get_upcoming_birthdays sample.today sample.db sample.alice = [sample.feb02])
    by reflexivity.
  rewrite H. repeat split; intros [E|[]]; discriminate E.
Qed.

(** C1. On 2024-01-28, a contact with birthday 02-02 created by one user
    is returned by the birthday query invoked with another user's
    identity. *)
Theorem get_upcoming_birthdays_returns_foreign_contact :
  let '(created, db) := create_contact sample.empty_db sample.new_contact sample.alice in
  get_upcoming_birthdays sample.today db sample.bob = [created]
  /\ owned_by sample.alice created = true
  /\ owned_by sample.bob created = false.
Proof. cbn. repeat split. Qed.

End Birthdays.

(** ** Search *)

Section Search.

Import repository_contacts.

Lemma lower_ascii_meta d c : spec.is_meta d (lower_ascii c) = spec.is_meta d c.
Proof.
  destruct d; destruct c as [[] [] [] [] [] [] [] []]; reflexivity.
Qed.

Lemma literal_lower d f : spec.literal d (lower f) = spec.literal d f.
Proof.
  induction f as [|c f IH]; cbn [lower spec.literal]; [reflexivity|].
  now rewrite lower_ascii_meta, IH.
Qed.

Lemma append_nil b : String.append EmptyString b = b.
Proof. reflexivity. Qed.

Lemma append_cons c a b :
  String.append (String c a) b = String c (String.append a b).
Proof. reflexivity. Qed.

Lemma lower_append a b : lower (String.append a b) = String.append (lower a) (lower b).
Proof.
  induction a as [|c a IH]; cbn [lower]; rewrite ?append_nil, ?append_cons;
    [reflexivity|].
  cbn [lower]. f_equal. exact IH.
Qed.

Lemma lower_contains_pattern f :
  lower (contains_pattern f) = contains_pattern (lower f).
Proof.
  unfold contains_pattern.
  change (lower (String percent (String.append f (String percent EmptyString))))
    with (String (lower_ascii percent)
                 (lower (String.append f (String percent EmptyString)))).
  rewrite lower_append. reflexivity.
Qed.

Lemma like_star_ext (m1 m2 : string -> bool) s :
  (forall x, m1 x = m2 x) -> like_star m1 s = like_star m2 s.
Proof.
  intros H. induction s as [|c s IH]; cbn [like_star]; rewrite H; [reflexivity|].
  now rewrite IH.
Qed.

Lemma like_percent_any same d s : like_with same d (String percent EmptyString) s = true.
Proof.
  cbn [like_with]. rewrite Ascii.eqb_refl.
  induction s as [|c s IH]; cbn [like_star like_with]; [reflexivity|].
  exact IH.
Qed.

Lemma not_meta d c :
  spec.is_meta d c = false ->
  Ascii.eqb c percent = false /\ Ascii.eqb c underscore = false
  /\ Ascii.eqb c backslash && backslash_escapes d = false.
Proof.
  unfold spec.is_meta. intros H.
  apply orb_false_iff in H as [H H3]. apply orb_false_iff in H as [H1 H2]. auto.
Qed.

Lemma like_literal_prefix same d f : forall s,
  spec.literal d f = true ->
  like_with same d (String.append f (String percent EmptyString)) s
  = spec.prefixb same f s.
Proof.
  induction f as [|c f IH]; intros s Hl.
  - rewrite append_nil. apply like_percent_any.
  - cbn [spec.literal] in Hl. apply andb_true_iff in Hl as [Hc Hl].
    apply negb_true_iff, not_meta in Hc as (H1 & H2 & H3).
    rewrite append_cons. cbn [like_with spec.prefixb]. rewrite H1, H2, H3.
    destruct s as [|x s]; [reflexivity|]. now rewrite IH.
Qed.

Lemma like_contains same d f s :
  spec.literal d f = true ->
  like_with same d (contains_pattern f) s = spec.infixb same f s.
Proof.
  intros Hl. unfold contains_pattern. cbn [like_with]. rewrite Ascii.eqb_refl.
  induction s as [|x s IH]; cbn [like_star spec.infixb];
    rewrite like_literal_prefix by exact Hl; [reflexivity|].
  now rewrite IH.
Qed.

(** Comparing lower-cased texts exactly is comparing the texts up to
    case. *)
Lemma prefixb_lower p : forall s,
  spec.prefixb Ascii.eqb (lower p) (lower s) = spec.prefixb (spec.same_case sqlite) p s.
Proof.
  induction p as [|c p IH]; intros [|x s]; cbn [lower spec.prefixb]; try reflexivity.
  now rewrite IH.
Qed.

Lemma infixb_lower p s :
  spec.infixb Ascii.eqb (lower p) (lower s) = spec.infixb (spec.same_case sqlite) p s.
Proof.
  induction s as [|x s IH].
  - cbn [spec.infixb]. now rewrite <- prefixb_lower.
  - cbn [spec.infixb lower]. rewrite <- IH.
    change (String (lower_ascii x) (lower s)) with (lower (String x s)).
    now rewrite prefixb_lower.
Qed.

(** For a filter without LIKE metacharacters, [ilike("%f%")] is the
    case-insensitive substring test, on either backend. *)
Lemma ilike_contains d f column :
  spec.literal d f = true ->
  ilike d column (contains_pattern f) = spec.icontains d f column.
Proof.
  intros Hl. unfold spec.icontains. destruct d as [lc|]; cbn [ilike].
  - now apply like_contains.
  - unfold like. rewrite lower_contains_pattern, like_contains by now rewrite literal_lower.
    apply infixb_lower.
Qed.

(** [prefixb] and [infixb] against the usual notions on texts. *)
Lemma prefixb_spec same p : forall s,
  spec.prefixb same p s = true
  <-> exists mid post, s = String.append mid post /\ spec.text_matches same mid p = true.
Proof.
  induction p as [|c p IH]; intros s; cbn [spec.prefixb].
  - split; [intros _; now exists EmptyString, s|reflexivity].
  - destruct s as [|x s].
    + split; [discriminate|]. intros ([|y mid] & post & H & Hm); [discriminate Hm|].
      rewrite append_cons in H. discriminate H.
    + rewrite andb_true_iff, IH. split.
      * intros [Hx (mid & post & -> & Hm)]. exists (String x mid), post.
        split; [reflexivity|]. cbn [spec.text_matches]. now rewrite Hx, Hm.
      * intros ([|y mid] & post & H & Hm); [discriminate Hm|].
        rewrite append_cons in H. injection H as -> ->.
        cbn [spec.text_matches] in Hm. apply andb_true_iff in Hm as [Hx Hm].
        split; [exact Hx|]. now exists mid, post.
Qed.

Lemma infixb_spec same needle : forall hay,
  spec.infixb same needle hay = true
  <-> exists pre mid post,
        hay = String.append pre (String.append mid post)
        /\ spec.text_matches same mid needle = true.
Proof.
  induction hay as [|x hay IH]; cbn [spec.infixb]; rewrite orb_true_iff, prefixb_spec.
  - split.
    + intros [(mid & post & H & Hm)|H]; [|discriminate].
      now exists EmptyString, mid, post.
    + intros ([|c pre] & mid & post & H & Hm);
        [left; now exists mid, post | rewrite append_cons in H; discriminate H].
  - rewrite IH. split.
    + intros [(mid & post & H & Hm)|(pre & mid & post & -> & Hm)].
      * now exists EmptyString, mid, post.
      * now exists (String x pre), mid, post.
    + intros ([|c pre] & mid & post & H & Hm).
      * left. now exists mid, post.
      * right. rewrite append_cons in H. injection H as -> ->. now exists pre, mid, post.
Qed.

Lemma icontains_empty d column : spec.icontains d EmptyString column = true.
Proof. unfold spec.icontains. destruct column; reflexivity. Qed.

Lemma opt_filter_holds d arg column query :
  opt_filter d arg column query
  = List.filter (fun c => spec.filter_holds d arg (column c)) query.
Proof.
  destruct arg as [f|]; cbn [opt_filter spec.filter_holds].
  - destruct f as [|c f]; cbn [truthy].
    + cbn [spec.literal]. symmetry. rewrite <- (List.filter_true query) at 2.
      apply filter_ext. intros x. apply icontains_empty.
    + apply filter_ext. intros x.
      destruct (spec.literal d (String c f)) eqn:Hl; [|reflexivity].
      now apply ilike_contains.
  - induction query as [|x query IH]; simpl; congruence.
Qed.

Lemma filter_filter {A} (p q : A -> bool) rows :
  List.filter q (List.filter p rows) = List.filter (fun x => p x && q x) rows.
Proof.
  induction rows as [|r rows IH]; simpl; [reflexivity|].
  destruct (p r); simpl; [destruct (q r)|]; now rewrite IH.
Qed.

(** C7 (as amended). With no filters the search returns exactly the
    caller's contacts.  In general it returns the caller's contacts that
    meet every provided filter, where a filter without LIKE metacharacter
    is met exactly when the column contains a run equal to the filter up
    to the case of its letters (as the backend lower-cases them), a filter
    with a metacharacter is the LIKE match of [%f%], and an absent filter,
    like an empty one, is always met. *)
Theorem search_contacts_substring db user first_name second_name email :
  search_contacts db user None None None = List.filter (owned_by user) (contacts db)
  /\ search_contacts db user first_name second_name email
     = List.filter (spec.found (bind db) user first_name second_name email) (contacts db)
  /\ (forall f column,
        spec.icontains (bind db) f column = true
        <-> exists pre mid post,
              column = String.append pre (String.append mid post)
              /\ spec.text_matches (spec.same_case (bind db)) mid f = true)
  /\ (forall column, spec.filter_holds (bind db) (Some EmptyString) column = true).
Proof.
  split; [reflexivity|]. split; [|split].
  - unfold search_contacts. rewrite !opt_filter_holds, !filter_filter.
    apply filter_ext. intros c. unfold spec.found. now rewrite !andb_assoc.
  - intros f column. apply infixb_spec.
  - intros column. apply icontains_empty.
Qed.

End Search.

Lemma search_contacts_substring_witness :
  repository_contacts.search_contacts sample.db sample.alice (Some "E") (Some "do") None
  = [sample.jan30; sample.feb05; sample.mar01].
Proof.
  destruct (search_contacts_substring sample.db sample.alice (Some "E") (Some "do") None)
    as (_ & H & _).
  rewrite H. reflexivity.
Defined.

(** C7, as stated, fails: the filter ["_"] is a one-character wildcard, so
    every contact of the caller is returned although no first name
    contains an underscore. *)
Lemma search_contacts_wildcard_counterexample :
  repository_contacts.search_contacts sample.db sample.alice (Some "_") None None
  = [sample.jan29; sample.jan30; sample.feb02; sample.feb05; sample.mar01]
  /\ List.filter (spec.search_matches (bind sample.db) sample.alice (Some "_") None None)
                 (contacts sample.db) = [].
Proof. split; reflexivity. Qed.

(** Case is folded as the backend does it: under a Latin-1 locale
    PostgreSQL finds the name with the accented capital for the filter
    with the small accented letter; SQLite, which folds A-Z only, does
    not. *)
Lemma ilike_locale_example :
  ilike (postgresql sample.latin1_lower) sample.elodie
        (repository_contacts.contains_pattern sample.elo) = true
  /\ ilike sqlite sample.elodie (repository_contacts.contains_pattern sample.elo) = false
  /\ ilike sqlite sample.elodie (repository_contacts.contains_pattern "LOD") = true.
Proof. repeat split. Qed.

(** ** Tokens *)

Section Tokens.

Import services_auth.

Variable self : Auth.

Lemma decode_own_token claims now :
  jwt.validate_exp claims now = true ->
  jwt.validate_rest claims now = true ->
  jwt.decode (jwt.encode claims (SECRET_KEY self) (ALGORITHM self))
             (SECRET_KEY self) [ALGORITHM self] now
  = jwt.Payload claims.
Proof.
  intros He Hs. unfold jwt.decode, jwt.encode.
  rewrite bool_decide_eq_true_2 by reflexivity.
  rewrite bool_decide_eq_true_2 by constructor.
  rewrite He, Hs. reflexivity.
Qed.

Lemma decode_own_token_refused claims now :
  jwt.validate_exp claims now && jwt.validate_rest claims now = false ->
  jwt.decode (jwt.encode claims (SECRET_KEY self) (ALGORITHM self))
             (SECRET_KEY self) [ALGORITHM self] now
  = jwt.JWTError.
Proof.
  intros H. unfold jwt.decode, jwt.encode.
  rewrite <- andb_assoc, H, andb_false_r. reflexivity.
Qed.

Lemma validate_exp_insert claims e now :
  now <= e -> jwt.validate_exp (<["exp" := JInt e]> claims) now = true.
Proof.
  intros H. unfold jwt.validate_exp. rewrite lookup_insert_eq. cbn [jwt.py_int].
  destruct (Z.ltb_spec e now); [lia | reflexivity].
Qed.

Lemma validate_exp_insert_late claims e now :
  e < now -> jwt.validate_exp (<["exp" := JInt e]> claims) now = false.
Proof.
  intros H. unfold jwt.validate_exp. rewrite lookup_insert_eq. cbn [jwt.py_int].
  destruct (Z.ltb_spec e now); [reflexivity | lia].
Qed.

(** The claims the service adds ([exp], [scope]) are not among those the
    other validators read, and the [iat] it adds is an integer. *)
Lemma validate_rest_exp claims e now :
  jwt.validate_rest (<["exp" := e]> claims) now = jwt.validate_rest claims now.
Proof.
  unfold jwt.validate_rest, jwt.validate_iat, jwt.validate_nbf, jwt.validate_aud,
    jwt.validate_sub, jwt.validate_jti, jwt.validate_at_hash.
  now rewrite !lookup_insert_ne by discriminate.
Qed.

Lemma validate_rest_scope claims v now :
  jwt.validate_rest (<["scope" := v]> claims) now = jwt.validate_rest claims now.
Proof.
  unfold jwt.validate_rest, jwt.validate_iat, jwt.validate_nbf, jwt.validate_aud,
    jwt.validate_sub, jwt.validate_jti, jwt.validate_at_hash.
  now rewrite !lookup_insert_ne by discriminate.
Qed.

Lemma validate_rest_iat claims n now :
  jwt.validate_rest claims now = true ->
  jwt.validate_rest (<["iat" := JInt n]> claims) now = true.
Proof.
  unfold jwt.validate_rest, jwt.validate_iat, jwt.validate_nbf, jwt.validate_aud,
    jwt.validate_sub, jwt.validate_jti, jwt.validate_at_hash.
  rewrite lookup_insert_eq, !lookup_insert_ne by discriminate.
  cbn [jwt.py_int]. rewrite bool_decide_eq_true_2 by eauto.
  rewrite !andb_true_iff. tauto.
Qed.

(** The payload the routes sign, [{"sub": email}], passes every check but
    the expiry. *)
Lemma validate_rest_sub_claim e now :
  jwt.validate_rest (routes_auth.sub_claim (JStr e)) now = true.
Proof. reflexivity. Qed.

Lemma validate_rest_aud claims v now :
  claims !! "aud" = Some v -> jwt.validate_rest claims now = false.
Proof.
  intros H. unfold jwt.validate_rest, jwt.validate_aud. rewrite H.
  now rewrite !andb_false_r.
Qed.

Lemma access_token_payload data expires_delta now now' :
  jwt.validate_rest data now' = true ->
  now' <= expiry now expires_delta (minutes 30) ->
  jwt.decode (create_access_token self data expires_delta now)
             (SECRET_KEY self) [ALGORITHM self] now'
  = jwt.Payload (<["scope" := JStr "access_token"]>
                   (<["exp" := JInt (expiry now expires_delta (minutes 30))]> data)).
Proof.
  intros Hs He. unfold create_access_token. apply decode_own_token.
  - unfold jwt.validate_exp. rewrite lookup_insert_ne by discriminate.
    now apply validate_exp_insert.
  - now rewrite validate_rest_scope, validate_rest_exp.
Qed.

Lemma access_token_refused data expires_delta now now' :
  jwt.validate_rest data now' = false \/ expiry now expires_delta (minutes 30) < now' ->
  jwt.decode (create_access_token self data expires_delta now)
             (SECRET_KEY self) [ALGORITHM self] now'
  = jwt.JWTError.
Proof.
  intros H. unfold create_access_token. apply decode_own_token_refused.
  rewrite validate_rest_scope, validate_rest_exp.
  destruct H as [-> | H]; [apply andb_false_r|].
  unfold jwt.validate_exp. rewrite lookup_insert_ne by discriminate.
  fold (jwt.validate_exp (<["exp" := JInt (expiry now expires_delta (minutes 30))]> data) now').
  now rewrite validate_exp_insert_late.
Qed.

(** C5 (as amended). A token made by [create_access_token] that the
    library accepts (the claims of [data] pass its checks and the token
    has not expired) is rejected by [decode_refresh_token] with "Invalid
    scope for token"; this covers every token the service signs, whose
    data is [{"sub": email}].  A token the library refuses (expired, or
    made from data carrying an [aud] claim) gets the generic "Could not
    validate credentials".  [decode_refresh_token] returns a
    subject only for a decodable token whose scope claim is
    "refresh_token", the value returned being its [sub] claim. *)
Theorem decode_refresh_token_scope data expires_delta now now' :
  (jwt.validate_rest data now' = true ->
   now' <= expiry now expires_delta (minutes 30) ->
   decode_refresh_token self (create_access_token self data expires_delta now) now'
   = HTTPException HTTP_401_UNAUTHORIZED "Invalid scope for token")
  /\ (forall email,
        now' <= expiry now expires_delta (minutes 30) ->
        decode_refresh_token self
          (create_access_token self (routes_auth.sub_claim (JStr email)) expires_delta now)
          now'
        = HTTPException HTTP_401_UNAUTHORIZED "Invalid scope for token")
  /\ (jwt.validate_rest data now' = true ->
      expiry now expires_delta (minutes 30) < now' ->
      decode_refresh_token self (create_access_token self data expires_delta now) now'
      = HTTPException HTTP_401_UNAUTHORIZED "Could not validate credentials")
  /\ (forall aud,
        data !! "aud" = Some aud ->
        jwt.validate_iat data = true -> jwt.validate_nbf data now' = true ->
        decode_refresh_token self (create_access_token self data expires_delta now) now'
        = HTTPException HTTP_401_UNAUTHORIZED "Could not validate credentials")
  /\ (forall token t,
        jwt.decode token (SECRET_KEY self) [ALGORITHM self] t = jwt.JWTError ->
        decode_refresh_token self token t
        = HTTPException HTTP_401_UNAUTHORIZED "Could not validate credentials")
  /\ (forall token t email,
        decode_refresh_token self token t = Return email ->
        exists payload,
          jwt.decode token (SECRET_KEY self) [ALGORITHM self] t = jwt.Payload payload
          /\ payload !! "scope" = Some (JStr "refresh_token")
          /\ payload !! "sub" = Some email).
Proof.
  split; [|split; [|split; [|split; [|split]]]].
  - intros Hs He. unfold decode_refresh_token.
    rewrite (access_token_payload data expires_delta now now' Hs He).
    rewrite lookup_insert_eq. reflexivity.
  - intros email He. unfold decode_refresh_token.
    rewrite (access_token_payload _ expires_delta now now'
               (validate_rest_sub_claim email now') He).
    rewrite lookup_insert_eq. reflexivity.
  - intros _ He. unfold decode_refresh_token.
    rewrite access_token_refused by now right. reflexivity.
  - intros aud Ha _ _. unfold decode_refresh_token.
    rewrite access_token_refused by (left; now apply (validate_rest_aud data aud)).
    reflexivity.
  - intros token t H. unfold decode_refresh_token. now rewrite H.
  - intros token t email. unfold decode_refresh_token.
    destruct (jwt.decode token (SECRET_KEY self) [ALGORITHM self] t) as [|payload];
      [discriminate|].
    destruct (payload !! "scope") as [scope|] eqn:Hscope; [|discriminate].
    destruct (bool_decide (scope = JStr "refresh_token")) eqn:Hb; [|discriminate].
    apply bool_decide_eq_true_1 in Hb as ->.
    destruct (payload !! "sub") as [sub|] eqn:Hsub; [|discriminate].
    intros [= ->]. exists payload. auto.
Qed.

Lemma email_token_payload data now now' :
  jwt.validate_rest data now' = true ->
  now' <= now + days 7 ->
  jwt.decode (create_email_token self data now) (SECRET_KEY self) [ALGORITHM self] now'
  = jwt.Payload (<["exp" := JInt (now + days 7)]> (<["iat" := JInt now]> data)).
Proof.
  intros Hs He. unfold create_email_token. apply decode_own_token.
  - now apply validate_exp_insert.
  - rewrite validate_rest_exp. now apply validate_rest_iat.
Qed.

(** A confirmation token carries no scope claim, so reading
    [payload['scope']] raises. *)
Lemma get_current_user_email_token data db now now' :
  jwt.validate_rest data now' = true ->
  data !! "scope" = None ->
  now' <= now + days 7 ->
  get_current_user self (create_email_token self data now) db now' = KeyError "scope".
Proof.
  intros Hs Hn He. unfold get_current_user.
  rewrite (email_token_payload data now now' Hs He).
  rewrite !lookup_insert_ne by discriminate. now rewrite Hn.
Qed.

(** Apart from a missing [scope] or [sub] key, every path of
    [get_current_user] ends in the one credentials failure or in the user
    whose email is the subject. *)
Lemma get_current_user_outcomes token db now :
  match get_current_user self token db now with
  | Return user =>
      exists payload,
        jwt.decode token (SECRET_KEY self) [ALGORITHM self] now = jwt.Payload payload
        /\ payload !! "scope" = Some (JStr "access_token")
        /\ payload !! "sub" = Some (JStr (User.email user))
        /\ In user (users db)
  | HTTPException status_code detail =>
      status_code = 401 /\ detail = "Could not validate credentials"
  | KeyError key =>
      exists payload,
        jwt.decode token (SECRET_KEY self) [ALGORITHM self] now = jwt.Payload payload
        /\ payload !! key = None /\ (key = "scope" \/ key = "sub")
  | AttributeError _ => False
  end.
Proof.
  unfold get_current_user, credentials_exception.
  destruct (jwt.decode token (SECRET_KEY self) [ALGORITHM self] now) as [|payload];
    [now split|].
  destruct (payload !! "scope") as [scope|] eqn:Hscope; [|exists payload; auto].
  destruct (bool_decide (scope = JStr "access_token")) eqn:Hb; [|now split].
  apply bool_decide_eq_true_1 in Hb as ->.
  destruct (payload !! "sub") as [email|] eqn:Hsub; [|exists payload; auto].
  destruct (bool_decide (email = JNull)); [now split|].
  destruct (repository_users.get_user_by_email email db) as [user|] eqn:Hu; [|now split].
  exists payload. unfold repository_users.get_user_by_email in Hu.
  apply first_filter_In in Hu as [Hin He].
  destruct email as [| |?|e]; try discriminate He.
  cbn in He. apply String.eqb_eq in He as ->. auto.
Qed.

(** The classes of invalid bearer tokens that do collapse into the one
    credentials failure: anything the library refuses (malformed, wrong
    key, expired, subject not a string), a scope other than
    "access_token", a null subject, and a subject nobody is registered
    under. *)
Lemma get_current_user_rejections token db now :
  (jwt.decode token (SECRET_KEY self) [ALGORITHM self] now = jwt.JWTError ->
   get_current_user self token db now = @credentials_exception User.t)
  /\ (forall payload scope,
        jwt.decode token (SECRET_KEY self) [ALGORITHM self] now = jwt.Payload payload ->
        payload !! "scope" = Some scope ->
        scope <> JStr "access_token" ->
        get_current_user self token db now = @credentials_exception User.t)
  /\ (forall payload email,
        jwt.decode token (SECRET_KEY self) [ALGORITHM self] now = jwt.Payload payload ->
        payload !! "scope" = Some (JStr "access_token") ->
        payload !! "sub" = Some email ->
        get_current_user self token db now
        = if bool_decide (email = JNull) then credentials_exception
          else match repository_users.get_user_by_email email db with
               | Some user => Return user
               | None => credentials_exception
               end).
Proof.
  unfold get_current_user. repeat split.
  - now intros ->.
  - intros payload scope -> -> Hne. now rewrite bool_decide_eq_false_2.
  - intros payload email -> -> ->. rewrite bool_decide_eq_true_2 by reflexivity.
    destruct (bool_decide (email = JNull)); [reflexivity|].
    destruct (repository_users.get_user_by_email email db); reflexivity.
Qed.

End Tokens.

Lemma decode_refresh_token_scope_witness :
  services_auth.decode_refresh_token sample.auth
    (services_auth.create_access_token sample.auth
       (routes_auth.sub_claim (JStr "alice@example.com")) None 1000) 2000
  = HTTPException HTTP_401_UNAUTHORIZED "Invalid scope for token".
Proof.
  apply (proj1 (decode_refresh_token_scope sample.auth
                  (routes_auth.sub_claim (JStr "alice@example.com")) None 1000 2000)).
  - reflexivity.
  - vm_compute. discriminate.
Defined.

(** C5, as stated, fails: an unexpired, correctly signed token made by
    [create_access_token] from data that carries an [aud] claim is refused
    by the library (no audience is passed to [jwt.decode]), so
    [decode_refresh_token] answers with the generic failure. *)
Lemma decode_refresh_token_generic_counterexample :
  services_auth.decode_refresh_token sample.auth
    (services_auth.create_access_token sample.auth
       (<["aud" := JStr "contacts"]> (routes_auth.sub_claim (JStr "alice@example.com")))
       None 1000) 2000
  = HTTPException HTTP_401_UNAUTHORIZED "Could not validate credentials".
Proof. reflexivity. Qed.

(** C4. The confirmation token mailed to a registered user (valid
    signature, unexpired, no scope claim), presented as a bearer token,
    makes [get_current_user] raise [KeyError] instead of the credentials
    failure. *)
Theorem get_current_user_email_token_escapes :
  services_auth.get_current_user sample.auth
    (services_auth.create_email_token sample.auth
       (routes_auth.sub_claim (JStr "alice@example.com")) 1000)
    sample.db 2000
  = KeyError "scope".
Proof.
  apply get_current_user_email_token.
  - reflexivity.
  - reflexivity.
  - vm_compute. discriminate.
Qed.

(** ** Users *)

Section Users.

Import repository_users.

Lemma first_filter_None {A} (p : A -> bool) rows :
  first (List.filter p rows) = None -> List.filter p rows = [].
Proof. destruct (List.filter p rows); [reflexivity | discriminate]. Qed.

Lemma get_user_by_email_found email db u :
  get_user_by_email email db = Some u ->
  In u (users db) /\ email = JStr (User.email u).
Proof.
  unfold get_user_by_email. intros H. apply first_filter_In in H as [Hin He].
  split; [exact Hin|]. destruct email as [| |?|e]; try discriminate He.
  cbn in He. now apply String.eqb_eq in He as ->.
Qed.

(** Writing back a row that still answers to the query leaves it the
    answer of the query. *)
Lemma first_filter_replace {A} `{EqDecision A} (p : A -> bool) (old new : A) rows :
  first (List.filter p rows) = Some old ->
  p new = true ->
  first (List.filter p (replace_first (fun r => bool_decide (r = old)) new rows))
  = Some new.
Proof.
  intros Hf Hn. pose proof (first_filter_In p rows old Hf) as [_ Ho].
  induction rows as [|r rows IH]; [discriminate Hf|].
  cbn [List.filter replace_first] in *.
  destruct (p r) eqn:Hp.
  - injection Hf as ->. rewrite bool_decide_eq_true_2 by reflexivity.
    cbn [List.filter]. now rewrite Hn.
  - rewrite bool_decide_eq_false_2 by (intros ->; congruence).
    cbn [List.filter]. rewrite Hp. now apply IH.
Qed.

Lemma get_user_by_email_commit email db old new :
  get_user_by_email email db = Some old ->
  User.email new = User.email old ->
  get_user_by_email email (commit_user old new db) = Some new.
Proof.
  intros H He. unfold get_user_by_email, commit_user. cbn [users].
  apply first_filter_replace; [exact H|].
  apply get_user_by_email_found in H as [_ ->]. cbn. rewrite He.
  apply String.eqb_refl.
Qed.

Lemma get_user_by_email_created db user gravatar :
  get_user_by_email (JStr (UserCreate.email user)) db = None ->
  get_user_by_email (JStr (UserCreate.email user)) (snd (create_user db user gravatar))
  = Some (fst (create_user db user gravatar)).
Proof.
  unfold get_user_by_email, create_user. cbn [fst snd users]. intros H.
  apply first_filter_None in H.
  rewrite List.filter_app, H. cbn. now rewrite String.eqb_refl.
Qed.

Lemma first_filter_replace_other {A} `{EqDecision A} (p : A -> bool) (old new : A) rows :
  p new = p old ->
  first (List.filter p (replace_first (fun r => bool_decide (r = old)) new rows))
  = (fun r => if bool_decide (r = old) then new else r) <$> first (List.filter p rows).
Proof.
  intros Hpn. induction rows as [|r rows IH]; [reflexivity|].
  cbn [replace_first List.filter].
  destruct (bool_decide (r = old)) eqn:Hr.
  - apply bool_decide_eq_true_1 in Hr as ->. cbn [List.filter]. rewrite Hpn.
    destruct (p old) eqn:Hpo.
    + cbn. now rewrite bool_decide_eq_true_2.
    + destruct (first (List.filter p rows)) as [x|] eqn:Hx; [|reflexivity].
      cbn. apply first_filter_In in Hx as [_ Hx].
      rewrite bool_decide_eq_false_2 by (intros ->; congruence). reflexivity.
  - cbn [List.filter]. destruct (p r); [|exact IH].
    cbn. now rewrite Hr.
Qed.

(** A write-back that keeps the email and the flag keeps every email's
    confirmation status. *)
Lemma is_confirmed_commit e db old new :
  User.email new = User.email old ->
  User.confirmed new = User.confirmed old ->
  spec.is_confirmed e (commit_user old new db) = spec.is_confirmed e db.
Proof.
  intros He Hc. unfold spec.is_confirmed, get_user_by_email, commit_user. cbn [users].
  rewrite first_filter_replace_other by (cbn; now rewrite He).
  destruct (first (List.filter (email_is (JStr e)) (users db))) as [r|]; [|reflexivity].
  cbn. destruct (bool_decide (r = old)) eqn:Hr; [|reflexivity].
  apply bool_decide_eq_true_1 in Hr as ->. exact Hc.
Qed.

Lemma is_confirmed_created e db user gravatar :
  get_user_by_email (JStr (UserCreate.email user)) db = None ->
  spec.is_confirmed e (snd (create_user db user gravatar)) = spec.is_confirmed e db.
Proof.
  intros Hnone. unfold spec.is_confirmed, get_user_by_email, create_user in *.
  cbn [snd users]. rewrite List.filter_app.
  destruct (List.filter (email_is (JStr e)) (users db)) as [|r rows] eqn:Hf.
  - cbn. destruct (String.eqb (UserCreate.email user) e); reflexivity.
  - reflexivity.
Qed.

(** Marking [u] confirmed changes the status of [u]'s email only. *)
Lemma is_confirmed_redeemed e db u :
  spec.is_confirmed e (commit_user u (set_confirmed u true) db) = true ->
  spec.is_confirmed e db = true \/ e = User.email u.
Proof.
  unfold spec.is_confirmed, get_user_by_email, commit_user. cbn [users].
  rewrite first_filter_replace_other by reflexivity.
  destruct (first (List.filter (email_is (JStr e)) (users db))) as [r|] eqn:Hf;
    [|discriminate].
  cbn. destruct (bool_decide (r = u)) eqn:Hr; [|now left].
  apply bool_decide_eq_true_1 in Hr as ->. intros _. right.
  apply (get_user_by_email_found (JStr e) db u) in Hf as [_ [= ->]]. reflexivity.
Qed.

End Users.

(** ** Authentication routes *)

Section AuthRoutes.

Import repository_users services_auth routes_auth.

Variable self : Auth.

(** C10. [request_email] reads [user.confirmed] before testing [user]:
    for an address with no registered user it raises [AttributeError]
    (no HTTP failure status is produced and no mail is scheduled), and
    whenever it returns at all a user was found, so the later
    [if user:] test never sees an absent user. *)
Theorem request_email_unknown_address email base_url db :
  (get_user_by_email (JStr email) db = None ->
   request_email email base_url db
   = (AttributeError "'NoneType' object has no attribute 'confirmed'", []))
  /\ forall msg tasks,
       request_email email base_url db = (Return msg, tasks) ->
       exists u,
         get_user_by_email (JStr email) db = Some u
         /\ (msg = "Check your email for confirmation." ->
             tasks = [mk_send_email (User.email u) (User.username u) base_url]).
Proof.
  unfold request_email. split.
  - intros ->. reflexivity.
  - intros msg tasks.
    destruct (get_user_by_email (JStr email) db) as [u|]; [|discriminate].
    cbn [getattr on_return]. destruct (User.confirmed u).
    + intros [= <- <-]. exists u. split; [reflexivity | discriminate].
    + intros [= <- <-]. exists u. split; reflexivity.
Qed.

(** C9. A decodable refresh token that is not the one stored for its
    subject makes the endpoint fail with 401 "Invalid refresh token" and
    leaves the database changed: the subject's stored refresh token is
    now [None].  The token that was stored before is thereby unusable:
    presenting it afterwards fails the same way. *)
Theorem refresh_token_mismatch_revokes credentials db now email user :
  decode_refresh_token self credentials now = Return email ->
  get_user_by_email email db = Some user ->
  User.refresh_token user <> Some credentials ->
  routes_auth.refresh_token self credentials db now
  = (HTTPException HTTP_401_UNAUTHORIZED "Invalid refresh token",
     update_token user None db)
  /\ get_user_by_email email (update_token user None db)
     = Some (set_refresh_token user None)
  /\ forall previous later,
       decode_refresh_token self previous later = Return email ->
       fst (routes_auth.refresh_token self previous (update_token user None db) later)
       = HTTPException HTTP_401_UNAUTHORIZED "Invalid refresh token".
Proof.
  intros Hd Hu Hne.
  assert (Hu' : get_user_by_email email (update_token user None db)
                = Some (set_refresh_token user None))
    by (apply get_user_by_email_commit; [exact Hu | reflexivity]).
  split; [|split; [exact Hu'|]].
  - unfold routes_auth.refresh_token. rewrite Hd. cbn [on_return]. rewrite Hu.
    rewrite bool_decide_eq_false_2 by exact Hne. reflexivity.
  - intros previous later Hp.
    unfold routes_auth.refresh_token. rewrite Hp. cbn [on_return]. rewrite Hu'.
    rewrite bool_decide_eq_false_2 by discriminate. reflexivity.
Qed.

Lemma login_unconfirmed db username password now u :
  get_user_by_email (JStr username) db = Some u ->
  User.confirmed u = false ->
  login self db username password now
  = (HTTPException HTTP_401_UNAUTHORIZED "Email not confirmed", db).
Proof. intros Hu Hc. unfold login. now rewrite Hu, Hc. Qed.

Lemma login_confirmed db username password now u :
  get_user_by_email (JStr username) db = Some u ->
  User.confirmed u = true ->
  verify_password self password (User.password u) = true ->
  login self db username password now
  = (Return (mkTokenModel
               (create_access_token self (sub_claim (JStr username)) None now)
               (create_refresh_token self (sub_claim (JStr username)) None now)
               "bearer"),
     update_token u (Some (create_refresh_token self (sub_claim (JStr username)) None now))
                  db).
Proof.
  intros Hu Hc Hv. unfold login. rewrite Hu, Hc, Hv. cbn [negb].
  apply get_user_by_email_found in Hu as [_ [= ->]]. reflexivity.
Qed.

Lemma login_success_confirmed db username password now :
  is_return (fst (login self db username password now)) = true ->
  exists u, get_user_by_email (JStr username) db = Some u /\ User.confirmed u = true.
Proof.
  unfold login.
  destruct (get_user_by_email (JStr username) db) as [u|]; [|discriminate].
  destruct (User.confirmed u) eqn:Hc; [|discriminate]. intros _. now exists u.
Qed.

Lemma confirmed_email_redeems token db now e u :
  get_email_from_token self token now = Return (JStr e) ->
  get_user_by_email (JStr e) db = Some u ->
  User.confirmed u = false ->
  routes_auth.confirmed_email self token db now
  = (Return "Email confirmed", commit_user u (set_confirmed u true) db).
Proof.
  intros Ht Hu Hc. unfold routes_auth.confirmed_email. rewrite Ht. cbn [on_return].
  rewrite Hu, Hc. unfold repository_users.confirmed_email. rewrite Hu. reflexivity.
Qed.

Lemma get_email_from_email_token e now now' :
  now' <= now + days 7 ->
  get_email_from_token self (create_email_token self (sub_claim (JStr e)) now) now'
  = Return (JStr e).
Proof.
  intros H. unfold get_email_from_token.
  rewrite (email_token_payload self (sub_claim (JStr e)) now now'); [|reflexivity|exact H].
  rewrite !lookup_insert_ne by discriminate. unfold sub_claim.
  now rewrite lookup_singleton_eq.
Qed.

(** One request can turn an email's status to confirmed only by
    redeeming a token whose subject is that email. *)
Lemma handle_confirms now r db e :
  spec.is_confirmed e (api.handle self now r db) = true ->
  spec.is_confirmed e db = true
  \/ exists token, r = api.ConfirmedEmail token
                   /\ get_email_from_token self token now = Return (JStr e).
Proof.
  destruct r as [user gravatar base_url|username password|? ?|credentials|token];
    cbn [api.handle].
  - unfold register.
    destruct (get_user_by_email (JStr (UserCreate.email user)) db) eqn:Hu;
      cbn [fst snd]; [now left|].
    set (hashed := UserCreate.mk _ _ _).
    change (snd (fst (let '(new_user, db0) := create_user db hashed gravatar in
                      (Return new_user, db0,
                       [mk_send_email (User.email new_user) (User.username new_user)
                                      base_url]))))
      with (snd (create_user db hashed gravatar)).
    rewrite (is_confirmed_created e db hashed gravatar) by exact Hu. now left.
  - unfold login. destruct (get_user_by_email (JStr username) db) as [u|];
      cbn [snd]; [|now left].
    destruct (negb (User.confirmed u)); cbn [snd]; [now left|].
    destruct (negb (verify_password self password (User.password u)));
      cbn [snd]; [now left|].
    unfold update_token. rewrite is_confirmed_commit by reflexivity. now left.
  - now left.
  - unfold routes_auth.refresh_token.
    destruct (decode_refresh_token self credentials now) as [email| | |];
      cbn [on_return snd]; try now left.
    destruct (get_user_by_email email db) as [u|]; cbn [snd]; [|now left].
    destruct (negb (bool_decide (User.refresh_token u = Some credentials)));
      cbn [snd]; unfold update_token; rewrite is_confirmed_commit by reflexivity;
      now left.
  - unfold routes_auth.confirmed_email.
    destruct (get_email_from_token self token now) as [email| | |] eqn:Ht;
      cbn [on_return snd]; try now left.
    destruct (get_user_by_email email db) as [u|] eqn:Hu; cbn [snd]; [|now left].
    destruct (User.confirmed u); cbn [snd]; [now left|].
    unfold repository_users.confirmed_email. rewrite Hu. cbn [on_return snd].
    intros H. apply is_confirmed_redeemed in H as [H| ->]; [now left|].
    right. exists token. split; [reflexivity|].
    now apply get_user_by_email_found in Hu as [_ ->].
Qed.

Lemma run_confirms trace : forall db e,
  spec.is_confirmed e db = false ->
  spec.is_confirmed e (api.run self trace db) = true ->
  exists now token,
    In (now, api.ConfirmedEmail token) trace
    /\ get_email_from_token self token now = Return (JStr e).
Proof.
  induction trace as [|[now r] trace IH]; intros db e Hno Hyes; cbn [api.run] in Hyes.
  - congruence.
  - destruct (spec.is_confirmed e (api.handle self now r db)) eqn:Hstep.
    + apply handle_confirms in Hstep as [H|(token & -> & Ht)]; [congruence|].
      exists now, token. split; [now left | exact Ht].
    + destruct (IH _ e Hstep Hyes) as (now' & token & Hin & Ht).
      exists now', token. split; [now right | exact Ht].
Qed.

(** C6. Registration stores the user unconfirmed.  While the flag is
    false, login is refused with 401 whatever the password, the correct
    one included.  Redeeming the mailed confirmation token sets the flag,
    after which login with the registered password returns an access and
    a refresh token.  A successful login always finds the flag set, and
    the flag of a freshly registered user can only have been set by a
    [confirmed_email] request carrying a token for that email. *)
Theorem login_requires_confirmed_email user gravatar base_url db issued redeemed :
  sound (pwd_context self) ->
  get_user_by_email (JStr (UserCreate.email user)) db = None ->
  redeemed <= issued + days 7 ->
  let email := UserCreate.email user in
  let password := UserCreate.password user in
  let db1 := snd (fst (register self user gravatar base_url db)) in
  let token := create_email_token self (sub_claim (JStr email)) issued in
  let db2 := snd (routes_auth.confirmed_email self token db1 redeemed) in
  (exists new_user,
     register self user gravatar base_url db
     = (Return new_user, db1, [mk_send_email email (UserCreate.username user) base_url])
     /\ User.confirmed new_user = false
     /\ get_user_by_email (JStr email) db1 = Some new_user)
  /\ (forall pw now,
        login self db1 email pw now
        = (HTTPException HTTP_401_UNAUTHORIZED "Email not confirmed", db1))
  /\ fst (routes_auth.confirmed_email self token db1 redeemed) = Return "Email confirmed"
  /\ spec.is_confirmed email db2 = true
  /\ (forall now,
        fst (login self db2 email password now)
        = Return (mkTokenModel
                    (create_access_token self (sub_claim (JStr email)) None now)
                    (create_refresh_token self (sub_claim (JStr email)) None now)
                    "bearer"))
  /\ (forall db' pw now,
        is_return (fst (login self db' email pw now)) = true ->
        spec.is_confirmed email db' = true)
  /\ (forall trace pw now,
        is_return (fst (login self (api.run self trace db1) email pw now)) = true ->
        exists at_time token',
          In (at_time, api.ConfirmedEmail token') trace
          /\ get_email_from_token self token' at_time = Return (JStr email)).
Proof.
  intros Hsound Hfresh Hexp email password db1 token db2.
  set (hashed := UserCreate.mk (UserCreate.username user) (UserCreate.email user)
                   (hash_password self (UserCreate.password user))).
  assert (Hreg : register self user gravatar base_url db
                 = (Return (fst (create_user db hashed gravatar)),
                    snd (create_user db hashed gravatar),
                    [mk_send_email email (UserCreate.username user) base_url])).
  { unfold register. rewrite Hfresh. reflexivity. }
  assert (Hdb1 : db1 = snd (create_user db hashed gravatar)).
  { unfold db1. now rewrite Hreg. }
  set (new_user := fst (create_user db hashed gravatar)) in *.
  assert (Hu1 : get_user_by_email (JStr email) db1 = Some new_user).
  { rewrite Hdb1. exact (get_user_by_email_created db hashed gravatar Hfresh). }
  assert (Hlogin_ok : forall db' pw now,
             is_return (fst (login self db' email pw now)) = true ->
             spec.is_confirmed email db' = true).
  { intros db' pw now H. apply login_success_confirmed in H as (u & Hu & Hc).
    unfold spec.is_confirmed. now rewrite Hu. }
  assert (Hredeem : routes_auth.confirmed_email self token db1 redeemed
                    = (Return "Email confirmed",
                       commit_user new_user (set_confirmed new_user true) db1)).
  { apply (confirmed_email_redeems token db1 redeemed email new_user);
      [now apply get_email_from_email_token | exact Hu1 | reflexivity]. }
  assert (Hu2 : get_user_by_email (JStr email) db2
                = Some (set_confirmed new_user true)).
  { unfold db2. rewrite Hredeem. cbn [snd].
    apply get_user_by_email_commit; [exact Hu1 | reflexivity]. }
  repeat split.
  - exists new_user. rewrite Hreg, <- Hdb1. repeat split. exact Hu1.
  - intros pw now. now apply (login_unconfirmed db1 email pw now new_user).
  - now rewrite Hredeem.
  - unfold spec.is_confirmed. now rewrite Hu2.
  - intros now.
    rewrite (login_confirmed db2 email password now (set_confirmed new_user true));
      [reflexivity | exact Hu2 | reflexivity | apply Hsound].
  - exact Hlogin_ok.
  - intros trace pw now H. apply Hlogin_ok in H.
    apply (run_confirms trace db1 email); [|exact H].
    unfold spec.is_confirmed. now rewrite Hu1.
Qed.

End AuthRoutes.

Lemma request_email_unknown_address_witness :
  routes_auth.request_email "nobody@example.com" "http://localhost/" sample.db
  = (AttributeError "'NoneType' object has no attribute 'confirmed'", []).
Proof.
  apply (proj1 (request_email_unknown_address "nobody@example.com" "http://localhost/"
                  sample.db)).
  reflexivity.
Defined.

Lemma refresh_token_mismatch_revokes_witness :
  routes_auth.refresh_token sample.auth sample.other_token sample.session_db 2000
  = (HTTPException HTTP_401_UNAUTHORIZED "Invalid refresh token",
     repository_users.update_token sample.alice_logged_in None sample.session_db).
Proof.
  apply (refresh_token_mismatch_revokes sample.auth sample.other_token sample.session_db
           2000 (JStr "alice@example.com") sample.alice_logged_in).
  - reflexivity.
  - reflexivity.
  - intros H. apply (bool_decide_eq_true_2 _) in H. vm_compute in H. discriminate H.
Defined.

Lemma login_requires_confirmed_email_witness :
  let db1 := snd (fst (routes_auth.register sample.auth sample.carol None
                         "http://localhost/" sample.db)) in
  let token := services_auth.create_email_token sample.auth
                 (routes_auth.sub_claim (JStr "carol@example.com")) 1000 in
  let db2 := snd (routes_auth.confirmed_email sample.auth token db1 2000) in
  fst (routes_auth.login sample.auth db1 "carol@example.com" "pw" 1500)
  = HTTPException HTTP_401_UNAUTHORIZED "Email not confirmed"
  /\ is_return (fst (routes_auth.login sample.auth db2 "carol@example.com" "pw" 3000))
     = true.
Proof.
  pose proof (login_requires_confirmed_email sample.auth sample.carol None
                "http://localhost/" sample.db 1000 2000) as H.
  destruct H as (_ & Hno & _ & _ & Hyes & _).
  - intros plain. apply String.eqb_refl.
  - reflexivity.
  - vm_compute. discriminate.
  - split.
    + now rewrite Hno.
    + now rewrite Hyes.
Defined.

(** * Further properties of the contact repository *)

Section ContactRepository.

Import repository_contacts.

Lemma fresh_id_above ids x : In x ids -> x < fresh_id ids.
Proof.
  unfold fresh_id. induction ids as [|y ids IH]; cbn [fold_right]; [contradiction|].
  intros [->|H]; [lia|]. specialize (IH H). lia.
Qed.

Lemma filter_fresh_id contact_id user rows :
  (forall r, In r rows -> Contact.id r <> contact_id) ->
  List.filter (is_row contact_id user) rows = [].
Proof.
  intros H. induction rows as [|r rows IH]; cbn [List.filter]; [reflexivity|].
  unfold is_row at 1. destruct (Z.eqb_spec (Contact.id r) contact_id) as [E|_].
  - exfalso. apply (H r); [now left | exact E].
  - cbn [andb]. apply IH. intros r' Hr'. apply H. now right.
Qed.

Lemma owned_by_own user c :
  Contact.user_id c = Some (User.id user) -> owned_by user c = true.
Proof. unfold owned_by, sql_eq. intros ->. apply Z.eqb_refl. Qed.

Lemma get_created_contact db contact user :
  get_contact (snd (create_contact db contact user))
              (Contact.id (fst (create_contact db contact user))) user
  = Some (fst (create_contact db contact user)).
Proof.
  unfold create_contact, get_contact. cbn [fst snd contacts Contact.id].
  rewrite List.filter_app, filter_fresh_id.
  - cbn [app List.filter]. unfold is_row. cbn [Contact.id].
    rewrite Z.eqb_refl, owned_by_own by reflexivity. reflexivity.
  - intros c Hc E.
    pose proof (fresh_id_above (map Contact.id (contacts db)) (Contact.id c)
                  (in_map Contact.id _ _ Hc)). lia.
Qed.

(** X1. A created contact carries the submitted fields, a key no stored
    contact has and the creator as owner; reading it back by the returned
    id as the creator yields it, reading that id as any other user yields
    nothing, and every other id reads as before. *)
Theorem create_contact_then_get db contact user :
  let created := fst (create_contact db contact user) in
  let db' := snd (create_contact db contact user) in
  get_contact db' (Contact.id created) user = Some created
  /\ (Contact.first_name created, Contact.second_name created, Contact.email created,
      Contact.phone created, Contact.birthdate created, Contact.additional_data created)
     = (ContactCreate.first_name contact, ContactCreate.second_name contact,
        ContactCreate.email contact, ContactCreate.phone contact,
        ContactCreate.birthdate contact, ContactCreate.additional_data contact)
  /\ Contact.user_id created = Some (User.id user)
  /\ (forall c, In c (contacts db) -> Contact.id c <> Contact.id created)
  /\ (forall other, User.id other <> User.id user ->
                    get_contact db' (Contact.id created) other = None)
  /\ (forall contact_id who, contact_id <> Contact.id created ->
                             get_contact db' contact_id who = get_contact db contact_id who).
Proof.
  cbn zeta. unfold create_contact. cbn [fst snd].
  set (created := Contact.mk _ _ _ _ _ _ _ _).
  assert (Hfresh : forall c, In c (contacts db) -> Contact.id c <> Contact.id created).
  { intros c Hc. pose proof (fresh_id_above (map Contact.id (contacts db)) (Contact.id c)
                               (in_map Contact.id _ _ Hc)). cbn. lia. }
  unfold get_contact. cbn [contacts].
  repeat split.
  - rewrite List.filter_app, (filter_fresh_id _ _ _ Hfresh). cbn [app List.filter].
    unfold is_row. rewrite Z.eqb_refl, owned_by_own by reflexivity. reflexivity.
  - exact Hfresh.
  - intros other Hne.
    rewrite List.filter_app, (filter_fresh_id _ _ _ Hfresh). cbn [app List.filter].
    unfold is_row, owned_by, sql_eq. cbn [Contact.user_id created].
    destruct (Z.eqb_spec (User.id user) (User.id other)); [congruence|].
    now rewrite andb_false_r.
  - intros contact_id who Hne. rewrite List.filter_app. cbn [List.filter].
    unfold is_row at 2. destruct (Z.eqb_spec (Contact.id created) contact_id); [congruence|].
    cbn [andb]. now rewrite app_nil_r.
Qed.

Lemma firstn_plus {A} a b (l : list A) :
  firstn (a + b) l = (firstn a l ++ firstn b (skipn a l))%list.
Proof.
  revert l. induction a as [|a IH]; intros l; [reflexivity|].
  destruct l as [|x l]; cbn [Nat.add firstn skipn app].
  - now destruct b.
  - now rewrite IH.
Qed.

(** X2. Pagination: a page never holds more than [limit] rows, two
    consecutive pages concatenate to the page of their joint size, and one
    page as long as the table is the caller's whole contact list in
    storage order. *)
Theorem get_contacts_pages db user skip a b :
  (length (get_contacts db user skip a) <= a)%nat
  /\ get_contacts db user skip (a + b)
     = (get_contacts db user skip a ++ get_contacts db user (skip + a) b)%list
  /\ get_contacts db user 0 (length (contacts db))
     = List.filter (owned_by user) (contacts db).
Proof.
  unfold get_contacts. repeat split.
  - rewrite length_firstn. lia.
  - rewrite firstn_plus. f_equal. f_equal.
    rewrite skipn_skipn. f_equal. lia.
  - cbn [skipn]. apply firstn_all2. apply filter_length_le.
Qed.

Lemma first_filter_replace_same {A} (p : A -> bool) (old new : A) rows :
  first (List.filter p rows) = Some old ->
  p new = true ->
  first (List.filter p (replace_first p new rows)) = Some new.
Proof.
  intros Hf Hn. induction rows as [|r rows IH]; [discriminate Hf|].
  cbn [List.filter replace_first] in *. destruct (p r) eqn:Hp.
  - cbn [List.filter]. now rewrite Hn.
  - cbn [List.filter]. rewrite Hp. now apply IH.
Qed.

Lemma replace_first_length {A} (p : A -> bool) x rows :
  length (replace_first p x rows) = length rows.
Proof.
  induction rows as [|r rows IH]; [reflexivity|]. cbn [replace_first].
  destruct (p r); cbn [length]; congruence.
Qed.

Lemma replace_first_unselected {A} (p q : A -> bool) x rows :
  (forall r, p r = true -> q r = false) -> q x = false ->
  List.filter q (replace_first p x rows) = List.filter q rows.
Proof.
  intros Hpq Hx. induction rows as [|r rows IH]; [reflexivity|].
  cbn [replace_first]. destruct (p r) eqn:Hp; cbn [List.filter].
  - now rewrite Hx, (Hpq r Hp).
  - now rewrite IH.
Qed.

Lemma is_row_other_id contact_id contact_id' user user' c :
  contact_id' <> contact_id ->
  is_row contact_id user c = true -> is_row contact_id' user' c = false.
Proof.
  unfold is_row. intros Hne H. apply andb_true_iff in H as [H _].
  apply Z.eqb_eq in H. destruct (Z.eqb_spec (Contact.id c) contact_id'); [congruence|].
  reflexivity.
Qed.

(** X3. Updating a contact the caller owns returns it with every mutable
    field replaced and its id and owner kept; reading it back yields the
    updated record, the table keeps its size, and every other id reads as
    before. *)
Theorem upgrade_contact_then_get db user contact_id contact old :
  get_contact db contact_id user = Some old ->
  let updated :=
    Contact.mk (Contact.id old)
               (ContactCreate.first_name contact) (ContactCreate.second_name contact)
               (ContactCreate.email contact) (ContactCreate.phone contact)
               (ContactCreate.birthdate contact) (ContactCreate.additional_data contact)
               (Contact.user_id old) in
  let db' := snd (upgrade_contact db user contact_id contact) in
  fst (upgrade_contact db user contact_id contact) = Some updated
  /\ get_contact db' contact_id user = Some updated
  /\ length (contacts db') = length (contacts db)
  /\ users db' = users db
  /\ (forall contact_id' who, contact_id' <> contact_id ->
        get_contact db' contact_id' who = get_contact db contact_id' who).
Proof.
  intros Hold. cbn zeta. unfold upgrade_contact.
  unfold get_contact in Hold. rewrite Hold. cbn [fst snd].
  pose proof (first_filter_In _ _ _ Hold) as [_ Hrow].
  set (updated := Contact.mk _ _ _ _ _ _ _ _).
  assert (Hnew : is_row contact_id user updated = true) by exact Hrow.
  unfold get_contact. cbn [contacts users]. repeat split.
  - apply (first_filter_replace_same _ old); [exact Hold | exact Hnew].
  - apply replace_first_length.
  - intros contact_id' who Hne. f_equal. apply replace_first_unselected.
    + intros r Hr. now apply (is_row_other_id contact_id contact_id' user who).
    + now apply (is_row_other_id contact_id contact_id' user who).
Qed.

Lemma remove_first_length {A} (p : A -> bool) rows x :
  first (List.filter p rows) = Some x ->
  S (length (remove_first p rows)) = length rows.
Proof.
  induction rows as [|r rows IH]; [discriminate|].
  cbn [List.filter remove_first]. destruct (p r); cbn [length]; [reflexivity|].
  intros H. now rewrite IH.
Qed.

Lemma remove_first_unselected {A} (p q : A -> bool) rows :
  (forall r, p r = true -> q r = false) ->
  List.filter q (remove_first p rows) = List.filter q rows.
Proof.
  intros Hpq. induction rows as [|r rows IH]; [reflexivity|].
  cbn [remove_first]. destruct (p r) eqn:Hp; cbn [List.filter].
  - now rewrite (Hpq r Hp).
  - now rewrite IH.
Qed.

Lemma remove_first_unique rows contact_id user :
  NoDup (map Contact.id rows) ->
  List.filter (is_row contact_id user) (remove_first (is_row contact_id user) rows) = [].
Proof.
  induction rows as [|r rows IH]; [reflexivity|].
  cbn [map remove_first]. intros Hnd. inversion Hnd as [|? ? Hnin Hnd']; subst.
  destruct (is_row contact_id user r) eqn:Hr.
  - apply filter_fresh_id. intros r' Hr' E. apply Hnin.
    unfold is_row in Hr. apply andb_true_iff in Hr as [Hr _]. apply Z.eqb_eq in Hr.
    rewrite Hr, <- E. apply list_elem_of_In. now apply in_map.
  - cbn [List.filter]. rewrite Hr. now apply IH.
Qed.

(** X4. With unique primary keys, deleting a contact the caller owns
    returns the stored record and removes exactly that row: the id no
    longer reads, the table shrinks by one, and every other id reads as
    before. *)
Theorem delete_contact_then_get db user contact_id old :
  NoDup (map Contact.id (contacts db)) ->
  get_contact db contact_id user = Some old ->
  let db' := snd (delete_contact db user contact_id) in
  fst (delete_contact db user contact_id) = Some old
  /\ get_contact db' contact_id user = None
  /\ S (length (contacts db')) = length (contacts db)
  /\ users db' = users db
  /\ (forall contact_id' who, contact_id' <> contact_id ->
        get_contact db' contact_id' who = get_contact db contact_id' who).
Proof.
  intros Hnd Hold. cbn zeta. unfold delete_contact.
  unfold get_contact in Hold. rewrite Hold. cbn [fst snd].
  unfold get_contact. cbn [contacts users]. repeat split.
  - now rewrite remove_first_unique.
  - now apply (remove_first_length _ _ old).
  - intros contact_id' who Hne. f_equal. apply remove_first_unselected.
    intros r Hr. now apply (is_row_other_id contact_id contact_id' user who).
Qed.

Lemma replace_first_map {A B} (f : A -> B) (p : A -> bool) x rows :
  (forall r, p r = true -> f r = f x) ->
  map f (replace_first p x rows) = map f rows.
Proof.
  intros H. induction rows as [|r rows IH]; [reflexivity|].
  cbn [replace_first]. destruct (p r) eqn:Hp; cbn [map]; [|now rewrite IH].
  now rewrite (H r Hp).
Qed.

Lemma remove_first_sublist {A B} (f : A -> B) (p : A -> bool) rows :
  sublist (map f (remove_first p rows)) (map f rows).
Proof.
  induction rows as [|r rows IH]; [constructor|].
  cbn [remove_first]. destruct (p r); cbn [map].
  - now apply sublist_cons.
  - now apply sublist_skip.
Qed.

(** X5. Primary keys stay unique: if no two stored contacts share an id,
    the same holds after a create, an update and a delete, whoever calls
    them and whether or not they find a row. *)
Theorem contact_ids_stay_unique db user contact contact_id :
  NoDup (map Contact.id (contacts db)) ->
  NoDup (map Contact.id (contacts (snd (create_contact db contact user))))
  /\ NoDup (map Contact.id (contacts (snd (upgrade_contact db user contact_id contact))))
  /\ NoDup (map Contact.id (contacts (snd (delete_contact db user contact_id)))).
Proof.
  intros Hnd. repeat split.
  - unfold create_contact. cbn [snd contacts]. rewrite map_app. cbn [map Contact.id].
    apply NoDup_app. split; [exact Hnd|]. split; [|apply NoDup_singleton].
    intros x Hx Hx'. apply list_elem_of_singleton in Hx'. subst x.
    apply list_elem_of_In, fresh_id_above in Hx. lia.
  - unfold upgrade_contact.
    destruct (first (List.filter (is_row contact_id user) (contacts db))) as [old|] eqn:Hf;
      cbn [snd contacts]; [|exact Hnd].
    rewrite replace_first_map; [exact Hnd|].
    intros r Hr. apply first_filter_In in Hf as [_ Ho].
    unfold is_row in Hr, Ho. apply andb_true_iff in Hr as [Hr _].
    apply andb_true_iff in Ho as [Ho _]. cbn. lia.
  - unfold delete_contact.
    destruct (first (List.filter (is_row contact_id user) (contacts db))) as [old|] eqn:Hf;
      cbn [snd contacts]; [|exact Hnd].
    exact (sublist_NoDup _ _ Hnd (remove_first_sublist Contact.id _ _)).
Qed.

Lemma opt_filter_None d column query : opt_filter d None column query = query.
Proof. reflexivity. Qed.

Lemma opt_filter_mono d arg column query query' c :
  (In c query -> In c query') ->
  In c (opt_filter d arg column query) -> In c (opt_filter d arg column query').
Proof.
  intros H. unfold opt_filter. destruct arg as [f|]; [|exact H].
  destruct (truthy (Some f)); [|exact H].
  rewrite !filter_In. intros [Hin Hp]. split; [now apply H | exact Hp].
Qed.

(** X6. Each search filter can only narrow the result: a contact found
    with some filters given is also found when any one of them is dropped.
    An empty filter string is the same as no filter. *)
Theorem search_contacts_narrows db user first_name second_name email c :
  (In c (search_contacts db user first_name second_name email) ->
   In c (search_contacts db user None second_name email)
   /\ In c (search_contacts db user first_name None email)
   /\ In c (search_contacts db user first_name second_name None))
  /\ search_contacts db user (Some "") second_name email
     = search_contacts db user None second_name email
  /\ search_contacts db user first_name (Some "") email
     = search_contacts db user first_name None email
  /\ search_contacts db user first_name second_name (Some "")
     = search_contacts db user first_name second_name None.
Proof.
  unfold search_contacts. split; [|repeat split].
  intros H. repeat split.
  - revert H. apply opt_filter_mono, opt_filter_mono. rewrite opt_filter_None.
    apply opt_filter_incl.
  - revert H. apply opt_filter_mono. rewrite opt_filter_None. apply opt_filter_incl.
  - rewrite opt_filter_None. revert H. apply opt_filter_incl.
Qed.

(** X7. On PostgreSQL, while the next seven days stay inside the current
    month, the birthday query returns exactly the caller's contacts whose
    birthday (month and day, year ignored) falls on today or one of the
    seven calendar days after it. *)
Theorem get_upcoming_birthdays_calendar today db user c lc :
  bind db = postgresql lc ->
  valid_date today ->
  day today + 7 <= days_in_month (year today) (month today) ->
  In c (get_upcoming_birthdays today db user)
  <-> In c (contacts db) /\ owned_by user c = true
      /\ exists k, (k <= 7)%nat
                   /\ month (Contact.birthdate c) = month (add_days today k)
                   /\ day (Contact.birthdate c) = day (add_days today k).
Proof.
  intros Hb Hv Hle. rewrite (get_upcoming_birthdays_same_month today db user Hv Hle).
  rewrite filter_In, andb_true_iff. rewrite Hb.
  unfold spec.in_same_month_window, spec.as_read.
  cbn [extract_month extract_day month day].
  rewrite !andb_true_iff, Z.eqb_eq, !Z.leb_le.
  split.
  - intros (Hin & Ho & (Hm & Hlo) & Hhi). repeat split; [exact Hin | exact Ho|].
    exists (Z.to_nat (day (Contact.birthdate c) - day today)).
    unfold add_days. rewrite iter_next_day_same_month by lia. cbn [month day].
    repeat split; lia.
  - intros (Hin & Ho & k & Hk & Hm & Hd). unfold add_days in Hm, Hd.
    rewrite iter_next_day_same_month in Hm, Hd by lia. cbn [month day] in Hm, Hd.
    repeat split; try assumption; lia.
Qed.

End ContactRepository.

(** * Further properties of the token service *)

Section TokenService.

Import services_auth.

Variable self : Auth.

Lemma expired_token claims e now :
  claims !! "exp" = Some (JInt e) -> e < now ->
  jwt.decode (jwt.encode claims (SECRET_KEY self) (ALGORITHM self))
             (SECRET_KEY self) [ALGORITHM self] now
  = jwt.JWTError.
Proof.
  intros He Hlt. unfold jwt.decode, jwt.encode, jwt.validate_exp. rewrite He.
  cbn [jwt.py_int]. destruct (Z.ltb_spec e now); [|lia]. cbn [negb].
  now rewrite andb_false_r.
Qed.

Lemma refresh_token_payload data expires_delta now now' :
  jwt.validate_rest data now' = true ->
  now' <= expiry now expires_delta (days 7) ->
  jwt.decode (create_refresh_token self data expires_delta now)
             (SECRET_KEY self) [ALGORITHM self] now'
  = jwt.Payload (<["scope" := JStr "refresh_token"]>
                   (<["exp" := JInt (expiry now expires_delta (days 7))]> data)).
Proof.
  intros Hs He. unfold create_refresh_token. apply decode_own_token.
  - unfold jwt.validate_exp. rewrite lookup_insert_ne by discriminate.
    now apply validate_exp_insert.
  - now rewrite validate_rest_scope, validate_rest_exp.
Qed.

Lemma refresh_token_accepted (data : gmap string jvalue) expires_delta now t e :
  jwt.validate_rest data t = true ->
  data !! "sub" = Some (JStr e) ->
  t <= expiry now expires_delta (days 7) ->
  decode_refresh_token self (create_refresh_token self data expires_delta now) t
  = Return (JStr e).
Proof.
  intros Hv Hsub Ht. unfold decode_refresh_token.
  rewrite refresh_token_payload by assumption.
  rewrite lookup_insert_eq. rewrite bool_decide_eq_true_2 by reflexivity.
  rewrite !lookup_insert_ne by discriminate. now rewrite Hsub.
Qed.

Lemma access_token_accepted (data : gmap string jvalue) expires_delta now t e db :
  jwt.validate_rest data t = true ->
  data !! "sub" = Some (JStr e) ->
  t <= expiry now expires_delta (minutes 30) ->
  get_current_user self (create_access_token self data expires_delta now) db t
  = match repository_users.get_user_by_email (JStr e) db with
    | Some user => Return user
    | None => credentials_exception
    end.
Proof.
  intros Hv Hsub Ht. unfold get_current_user.
  rewrite access_token_payload by assumption.
  rewrite lookup_insert_eq. rewrite bool_decide_eq_true_2 by reflexivity.
  rewrite !lookup_insert_ne by discriminate. rewrite Hsub.
  rewrite bool_decide_eq_false_2 by discriminate. reflexivity.
Qed.

Lemma email_token_expired (data : gmap string jvalue) now t :
  now + days 7 < t ->
  get_email_from_token self (create_email_token self data now) t
  = HTTPException HTTP_422_UNPROCESSABLE_ENTITY "Invalid token for email verification".
Proof.
  intros Ht. unfold get_email_from_token, create_email_token.
  rewrite (expired_token _ (now + days 7)); [reflexivity| |exact Ht].
  apply lookup_insert_eq.
Qed.

(** X8. A refresh token made from data that passes the library's claim
    checks decodes to its subject up to and including its expiry second
    (seven days after issue unless a non-zero lifetime was given) and is
    refused with 401 "Could not validate credentials" from the next second
    on. *)
Theorem refresh_token_round_trip (data : gmap string jvalue) expires_delta now t e :
  jwt.validate_rest data t = true ->
  data !! "sub" = Some (JStr e) ->
  (t <= expiry now expires_delta (days 7) ->
   decode_refresh_token self (create_refresh_token self data expires_delta now) t
   = Return (JStr e))
  /\ (expiry now expires_delta (days 7) < t ->
      decode_refresh_token self (create_refresh_token self data expires_delta now) t
      = HTTPException HTTP_401_UNAUTHORIZED "Could not validate credentials").
Proof.
  intros Hv Hsub. split; intros Ht.
  - now apply refresh_token_accepted.
  - unfold decode_refresh_token, create_refresh_token.
    rewrite (expired_token _ (expiry now expires_delta (days 7))); [reflexivity| |exact Ht].
    rewrite lookup_insert_ne by discriminate. apply lookup_insert_eq.
Qed.

(** X9. An access token made from data that passes the library's claim
    checks identifies the registered user whose email is its subject up to
    and including its expiry second (thirty minutes after issue unless a
    non-zero lifetime was given); it is refused with the credentials
    failure once expired or when nobody is registered under the subject. *)
Theorem access_token_round_trip (data : gmap string jvalue) expires_delta now t e db :
  jwt.validate_rest data t = true ->
  data !! "sub" = Some (JStr e) ->
  (t <= expiry now expires_delta (minutes 30) ->
   get_current_user self (create_access_token self data expires_delta now) db t
   = match repository_users.get_user_by_email (JStr e) db with
     | Some user => Return user
     | None => credentials_exception
     end)
  /\ (expiry now expires_delta (minutes 30) < t ->
      get_current_user self (create_access_token self data expires_delta now) db t
      = credentials_exception).
Proof.
  intros Hv Hsub. split; intros Ht.
  - now apply access_token_accepted.
  - unfold get_current_user, create_access_token.
    rewrite (expired_token _ (expiry now expires_delta (minutes 30))); [reflexivity| |exact Ht].
    rewrite lookup_insert_ne by discriminate. apply lookup_insert_eq.
Qed.


(** X11. [get_email_from_token] does not look at the scope: within its
    lifetime an access token or a refresh token, made from data that
    passes the library's claim checks, yields its subject just as a
    confirmation token does.  A confirmation token is refused with 422
    once its seven days are over. *)
Theorem get_email_from_token_any_scope (data : gmap string jvalue) expires_delta now t e :
  jwt.validate_rest data t = true ->
  data !! "sub" = Some (JStr e) ->
  (t <= expiry now expires_delta (minutes 30) ->
   get_email_from_token self (create_access_token self data expires_delta now) t
   = Return (JStr e))
  /\ (t <= expiry now expires_delta (days 7) ->
      get_email_from_token self (create_refresh_token self data expires_delta now) t
      = Return (JStr e))
  /\ (t <= now + days 7 ->
      get_email_from_token self (create_email_token self data now) t = Return (JStr e))
  /\ (now + days 7 < t ->
      get_email_from_token self (create_email_token self data now) t
      = HTTPException HTTP_422_UNPROCESSABLE_ENTITY "Invalid token for email verification").
Proof.
  intros Hv Hsub.
  unfold get_email_from_token. repeat split; intros Ht.
  - rewrite access_token_payload by assumption.
    rewrite !lookup_insert_ne by discriminate. now rewrite Hsub.
  - rewrite refresh_token_payload by assumption.
    rewrite !lookup_insert_ne by discriminate. now rewrite Hsub.
  - rewrite email_token_payload by assumption.
    rewrite !lookup_insert_ne by discriminate. now rewrite Hsub.
  - fold (get_email_from_token self (create_email_token self data now) t).
    now apply email_token_expired.
Qed.

End TokenService.

(** * Further properties of the authentication routes *)

Section AuthFlows.

Import repository_users services_auth.

Variable self : Auth.

Lemma commit_user_map {B} (f : User.t -> B) old new db :
  f new = f old ->
  map f (users (commit_user old new db)) = map f (users db).
Proof.
  intros H. unfold commit_user. cbn [users]. apply replace_first_map.
  intros r Hr. apply bool_decide_eq_true_1 in Hr. now subst r.
Qed.

Lemma get_user_by_email_commit_other q db old new :
  email_is q old = false -> User.email new = User.email old ->
  get_user_by_email q (commit_user old new db) = get_user_by_email q db.
Proof.
  intros Hq He. unfold get_user_by_email, commit_user. cbn [users].
  assert (Hn : email_is q new = false) by (unfold email_is in *; now rewrite He).
  f_equal. apply replace_first_unselected; [|exact Hn].
  intros r Hr. apply bool_decide_eq_true_1 in Hr. now subst r.
Qed.

Lemma get_current_user_users token db db' now :
  users db' = users db ->
  get_current_user self token db' now = get_current_user self token db now.
Proof.
  intros H. unfold get_current_user, get_user_by_email. now rewrite H.
Qed.

Lemma get_user_by_email_self db u e :
  get_user_by_email (JStr e) db = Some u -> User.email u = e.
Proof. intros H. now apply get_user_by_email_found in H as [_ [= ->]]. Qed.

(** X12. A successful login stores the returned refresh token on the
    user's row and touches nothing else of that row or of the contacts.
    The returned access token then identifies that user for thirty
    minutes, and the returned refresh token decodes to the login name for
    seven days. *)
Theorem login_success db username password now tokens db' :
  routes_auth.login self db username password now = (Return tokens, db') ->
  exists u,
    get_user_by_email (JStr username) db = Some u
    /\ User.confirmed u = true
    /\ verify_password self password (User.password u) = true
    /\ get_user_by_email (JStr username) db'
       = Some (set_refresh_token u (Some (refresh_token tokens)))
    /\ contacts db' = contacts db
    /\ (forall t, t <= now + minutes 30 ->
          get_current_user self (access_token tokens) db' t
          = Return (set_refresh_token u (Some (refresh_token tokens))))
    /\ (forall t, t <= now + days 7 ->
          decode_refresh_token self (refresh_token tokens) t = Return (JStr username)).
Proof.
  unfold routes_auth.login.
  destruct (get_user_by_email (JStr username) db) as [u|] eqn:Hu; [|discriminate].
  destruct (User.confirmed u) eqn:Hc; [|discriminate]. cbn [negb].
  destruct (verify_password self password (User.password u)) eqn:Hv; [|discriminate].
  cbn [negb]. intros [= <- <-]. cbn [access_token refresh_token].
  pose proof (get_user_by_email_self db u username Hu) as He. rewrite He.
  set (fresh := create_refresh_token self (routes_auth.sub_claim (JStr username)) None now).
  assert (Hu' : get_user_by_email (JStr username) (update_token u (Some fresh) db)
                = Some (set_refresh_token u (Some fresh)))
    by (apply get_user_by_email_commit; [exact Hu | reflexivity]).
  exists u. repeat split; try assumption.
  - intros t Ht.
    rewrite (access_token_accepted self (routes_auth.sub_claim (JStr username)) None now t
               username); [|reflexivity | apply lookup_singleton_eq | exact Ht].
    now rewrite Hu'.
  - intros t Ht.
    apply (refresh_token_accepted self (routes_auth.sub_claim (JStr username)) None now t
             username); [reflexivity | apply lookup_singleton_eq | exact Ht].
Qed.

(** X13. Whatever its outcome, login changes no contact and nothing of
    any user row except a refresh token; a login that fails is a 401 and
    leaves the database exactly as it was. *)
Theorem login_frame db username password now :
  let out := routes_auth.login self db username password now in
  contacts (snd out) = contacts db
  /\ map spec.without_token (users (snd out)) = map spec.without_token (users db)
  /\ (is_return (fst out) = false ->
      snd out = db
      /\ exists detail, fst out = HTTPException HTTP_401_UNAUTHORIZED detail).
Proof.
  cbn zeta. unfold routes_auth.login.
  destruct (get_user_by_email (JStr username) db) as [u|]; cbn [fst snd];
    [|repeat split; eauto].
  destruct (negb (User.confirmed u)); cbn [fst snd]; [repeat split; eauto|].
  destruct (negb (verify_password self password (User.password u))); cbn [fst snd];
    [repeat split; eauto|].
  repeat split; try discriminate.
  apply (commit_user_map spec.without_token). reflexivity.
Qed.

Lemma refresh_tokens_differ data now now' :
  now <> now' ->
  create_refresh_token self data None now <> create_refresh_token self data None now'.
Proof.
  intros Hne E. unfold create_refresh_token, jwt.encode in E. injection E as E.
  apply (f_equal (fun m : gmap string jvalue => m !! "exp")) in E. cbv beta in E.
  rewrite (lookup_insert_ne _ "scope" "exp") in E by discriminate.
  symmetry in E.
  rewrite (lookup_insert_ne _ "scope" "exp") in E by discriminate.
  repeat (rewrite lookup_insert_eq in E).
  unfold expiry in E.
  assert (now + days 7 = now' + days 7) by congruence. lia.
Qed.

(** X14. Presenting the stored refresh token rotates it: the route returns
    a new pair and stores the new refresh token.  If the old token differs
    from the new one (it was issued at another second), replaying the old
    one afterwards is answered with 401 and clears the stored token, after
    which the new refresh token is refused as well. *)
Theorem refresh_token_rotation db now e u tok :
  get_user_by_email (JStr e) db = Some u ->
  User.refresh_token u = Some tok ->
  decode_refresh_token self tok now = Return (JStr e) ->
  let fresh := create_refresh_token self (routes_auth.sub_claim (JStr e)) None now in
  let db' := update_token u (Some fresh) db in
  let db'' := update_token (set_refresh_token u (Some fresh)) None db' in
  routes_auth.refresh_token self tok db now
  = (Return (mkTokenModel
               (create_access_token self (routes_auth.sub_claim (JStr e)) None now)
               fresh "bearer"), db')
  /\ get_user_by_email (JStr e) db' = Some (set_refresh_token u (Some fresh))
  /\ (tok <> fresh ->
      forall later,
        decode_refresh_token self tok later = Return (JStr e) ->
        routes_auth.refresh_token self tok db' later
        = (HTTPException HTTP_401_UNAUTHORIZED "Invalid refresh token", db'')
        /\ forall t,
             decode_refresh_token self fresh t = Return (JStr e) ->
             fst (routes_auth.refresh_token self fresh db'' t)
             = HTTPException HTTP_401_UNAUTHORIZED "Invalid refresh token").
Proof.
  intros Hu Hstored Hdec. cbn zeta.
  set (fresh := create_refresh_token self (routes_auth.sub_claim (JStr e)) None now).
  assert (Hu' : get_user_by_email (JStr e) (update_token u (Some fresh) db)
                = Some (set_refresh_token u (Some fresh)))
    by (apply get_user_by_email_commit; [exact Hu | reflexivity]).
  split; [|split; [exact Hu'|intros Hne later Hlater; split]].
  - unfold routes_auth.refresh_token. rewrite Hdec. cbn [on_return]. rewrite Hu, Hstored.
    rewrite bool_decide_eq_true_2 by reflexivity. reflexivity.
  - unfold routes_auth.refresh_token. rewrite Hlater. cbn [on_return]. rewrite Hu'.
    cbn [User.refresh_token set_refresh_token].
    rewrite bool_decide_eq_false_2 by congruence. reflexivity.
  - intros t Ht. unfold routes_auth.refresh_token. rewrite Ht. cbn [on_return].
    assert (Hu'' : get_user_by_email (JStr e)
                     (update_token (set_refresh_token u (Some fresh)) None
                                   (update_token u (Some fresh) db))
                   = Some (set_refresh_token (set_refresh_token u (Some fresh)) None))
      by (apply get_user_by_email_commit; [exact Hu' | reflexivity]).
    rewrite Hu''. cbn [User.refresh_token set_refresh_token].
    rewrite bool_decide_eq_false_2 by discriminate. reflexivity.
Qed.

(** X15. Registration never overwrites: once an email is registered,
    whether by this call or before it, registering it again with any name
    and password is refused with 409, changes nothing and schedules no
    mail. *)
Theorem register_twice user again gravatar gravatar' base_url base_url' db :
  UserCreate.email again = UserCreate.email user ->
  let db1 := snd (fst (routes_auth.register self user gravatar base_url db)) in
  routes_auth.register self again gravatar' base_url' db1
  = (HTTPException HTTP_409_CONFLICT "Email already registered", db1, []).
Proof.
  intros He. cbn zeta.
  assert (H : exists u,
             get_user_by_email (JStr (UserCreate.email user))
               (snd (fst (routes_auth.register self user gravatar base_url db))) = Some u).
  { unfold routes_auth.register.
    destruct (get_user_by_email (JStr (UserCreate.email user)) db) as [u|] eqn:Hu;
      cbn [fst snd]; [eauto|].
    set (hashed := UserCreate.mk _ _ _). eexists.
    exact (get_user_by_email_created db hashed gravatar Hu). }
  destruct H as [u Hu]. unfold routes_auth.register at 1. now rewrite He, Hu.
Qed.

Lemma get_user_by_email_absent e db :
  get_user_by_email (JStr e) db = None -> ~ In e (map User.email (users db)).
Proof.
  unfold get_user_by_email. intros Hn Hin. apply first_filter_None in Hn.
  apply in_map_iff in Hin as (u & He & Hu).
  assert (H : In u (List.filter (email_is (JStr e)) (users db))).
  { apply filter_In. split; [exact Hu|]. cbn. rewrite He. apply String.eqb_refl. }
  now rewrite Hn in H.
Qed.

(** One request either keeps the emails and ids of the user table, row by
    row, or appends one user with a new email and a new id. *)
Lemma handle_user_keys now r db :
  (map User.email (users (api.handle self now r db)) = map User.email (users db)
   /\ map User.id (users (api.handle self now r db)) = map User.id (users db))
  \/ exists new,
       users (api.handle self now r db) = (users db ++ [new])%list
       /\ ~ In (User.email new) (map User.email (users db))
       /\ ~ In (User.id new) (map User.id (users db)).
Proof.
  destruct r as [user gravatar base_url|username password|? ?|credentials|token];
    cbn [api.handle].
  - unfold routes_auth.register.
    destruct (get_user_by_email (JStr (UserCreate.email user)) db) eqn:Hu;
      cbn [fst snd]; [now left|].
    right. eexists. unfold create_user. cbn [fst snd users]. split; [reflexivity|].
    cbn [User.email User.id]. split; [now apply get_user_by_email_absent|].
    intros Hin. apply fresh_id_above in Hin. lia.
  - left. unfold routes_auth.login.
    destruct (get_user_by_email (JStr username) db) as [u|]; cbn [snd]; [|now split].
    destruct (negb (User.confirmed u)); cbn [snd]; [now split|].
    destruct (negb (verify_password self password (User.password u)));
      cbn [snd]; [now split|].
    unfold update_token. now rewrite !commit_user_map by reflexivity.
  - now left.
  - left. unfold routes_auth.refresh_token.
    destruct (decode_refresh_token self credentials now) as [email| | |];
      cbn [on_return snd]; try now split.
    destruct (get_user_by_email email db) as [u|]; cbn [snd]; [|now split].
    destruct (negb (bool_decide (User.refresh_token u = Some credentials)));
      cbn [snd]; unfold update_token; now rewrite !commit_user_map by reflexivity.
  - left. unfold routes_auth.confirmed_email.
    destruct (get_email_from_token self token now) as [email| | |];
      cbn [on_return snd]; try now split.
    destruct (get_user_by_email email db) as [u|] eqn:Hu; cbn [snd]; [|now split].
    destruct (User.confirmed u); cbn [snd]; [now split|].
    unfold repository_users.confirmed_email. rewrite Hu. cbn [on_return snd].
    now rewrite !commit_user_map by reflexivity.
Qed.

Lemma NoDup_snoc {A} (l : list A) x : NoDup l -> ~ In x l -> NoDup (l ++ [x]).
Proof.
  intros Hl Hx. apply NoDup_app. split; [exact Hl|]. split; [|apply NoDup_singleton].
  intros y Hy Hy'. apply list_elem_of_singleton in Hy'. subst y.
  now apply Hx, list_elem_of_In.
Qed.

(** X16. The authentication endpoints keep emails and user ids unique:
    if no two users share an email or an id, this still holds after any
    sequence of register, login, request_email, refresh_token and
    confirmed_email requests. *)
Theorem users_stay_unique trace : forall db,
  NoDup (map User.email (users db)) ->
  NoDup (map User.id (users db)) ->
  NoDup (map User.email (users (api.run self trace db)))
  /\ NoDup (map User.id (users (api.run self trace db))).
Proof.
  induction trace as [|[now r] trace IH]; intros db He Hi; cbn [api.run]; [now split|].
  apply IH.
  - destruct (handle_user_keys now r db) as [[-> _]|(new & -> & Hne & _)]; [exact He|].
    rewrite map_app. now apply NoDup_snoc.
  - destruct (handle_user_keys now r db) as [[_ ->]|(new & -> & _ & Hni)]; [exact Hi|].
    rewrite map_app. now apply NoDup_snoc.
Qed.




(** X18. The confirmation mail of a fresh registration goes to the
    registered address only.  Its token confirms that user when redeemed
    up to seven days after the mail was built, and is refused with 422,
    leaving the user unconfirmed, from then on. *)
Theorem registration_mail user gravatar base_url db sent t :
  get_user_by_email (JStr (UserCreate.email user)) db = None ->
  let out := routes_auth.register self user gravatar base_url db in
  let db1 := snd (fst out) in
  exists task,
    snd out = [task]
    /\ let mail := services_email.message self task sent in
       services_email.recipients mail = [UserCreate.email user]
       /\ (t <= sent + days 7 ->
           fst (routes_auth.confirmed_email self (services_email.template_token mail) db1 t)
           = Return "Email confirmed"
           /\ spec.is_confirmed (UserCreate.email user)
                (snd (routes_auth.confirmed_email self
                        (services_email.template_token mail) db1 t)) = true)
       /\ (sent + days 7 < t ->
           routes_auth.confirmed_email self (services_email.template_token mail) db1 t
           = (HTTPException HTTP_422_UNPROCESSABLE_ENTITY
                            "Invalid token for email verification", db1)).
Proof.
  intros Hfresh. cbn zeta. unfold routes_auth.register. rewrite Hfresh.
  set (hashed := UserCreate.mk _ _ _). cbn [fst snd].
  pose proof (get_user_by_email_created db hashed gravatar Hfresh) as Hu.
  change (UserCreate.email hashed) with (UserCreate.email user) in Hu.
  set (new_user := fst (create_user db hashed gravatar)) in *.
  set (db1 := snd (create_user db hashed gravatar)) in *.
  eexists. split; [reflexivity|].
  unfold services_email.message.
  cbn [services_email.recipients services_email.template_token recipient].
  change (User.email new_user) with (UserCreate.email user).
  split; [reflexivity|]. split.
  - intros Ht.
    rewrite (confirmed_email_redeems self _ db1 t (UserCreate.email user) new_user);
      [|now apply get_email_from_email_token | exact Hu | reflexivity].
    cbn [fst snd]. split; [reflexivity|]. unfold spec.is_confirmed.
    now rewrite (get_user_by_email_commit _ db1 new_user (set_confirmed new_user true) Hu).
  - intros Ht.
    change (routes_auth.confirmed_email self
              (create_email_token self {["sub" := JStr (UserCreate.email user)]} sent) db1 t
            = (HTTPException HTTP_422_UNPROCESSABLE_ENTITY
                             "Invalid token for email verification", db1)).
    unfold routes_auth.confirmed_email.
    now rewrite (email_token_expired self _ sent t Ht).
Qed.

Lemma get_current_user_subject token db now u :
  get_current_user self token db now = Return u ->
  exists e,
    get_user_by_email (JStr e) db = Some u
    /\ forall db',
         get_current_user self token db' now
         = match get_user_by_email (JStr e) db' with
           | Some u' => Return u'
           | None => credentials_exception
           end.
Proof.
  unfold get_current_user, credentials_exception.
  destruct (jwt.decode token (SECRET_KEY self) [ALGORITHM self] now) as [|payload];
    [discriminate|].
  destruct (payload !! "scope") as [scope|]; [|discriminate].
  destruct (bool_decide (scope = JStr "access_token")); [|discriminate].
  destruct (payload !! "sub") as [email|]; [|discriminate].
  destruct (bool_decide (email = JNull)) eqn:Hn; [discriminate|].
  destruct (get_user_by_email email db) as [u'|] eqn:Hu; [|discriminate].
  intros [= ->]. pose proof (get_user_by_email_found _ _ _ Hu) as [_ ->].
  exists (User.email u). split; [exact Hu|]. intros db'. reflexivity.
Qed.

(** X19. Uploading an avatar as an authenticated user sets that user's
    avatar to the new URL and changes nothing else: no contact, no other
    field of any user row.  Asking for the current user with the same
    token afterwards shows the new avatar. *)
Theorem update_avatar_user_then_me token src_url db now u :
  get_current_user self token db now = Return u ->
  let out := routes_users.update_avatar_user self token src_url db now in
  fst out = Return (set_avatar u (Some src_url))
  /\ routes_users.read_users_me self token (snd out) now
     = Return (set_avatar u (Some src_url))
  /\ contacts (snd out) = contacts db
  /\ map spec.without_avatar (users (snd out)) = map spec.without_avatar (users db).
Proof.
  intros Hme. cbn zeta. unfold routes_users.update_avatar_user, routes_users.read_users_me.
  rewrite Hme. cbn [on_return].
  destruct (get_current_user_subject token db now u Hme) as (e & Hu & Hany).
  rewrite (get_user_by_email_self db u e Hu). unfold update_avatar. rewrite Hu.
  cbn [fst snd]. repeat split.
  - rewrite Hany.
    now rewrite (get_user_by_email_commit _ db u (set_avatar u (Some src_url)) Hu).
  - now apply (commit_user_map spec.without_avatar).
Qed.

End AuthFlows.

(** * Further properties of the rate limiter *)

Section RateLimiterMore.

Import rate_limiter.

Lemma rate_key_inj a b : rate_key a = rate_key b -> a = b.
Proof.
  unfold rate_key. rewrite !append_cons, !append_nil. now intros [= ->].
Qed.

Lemma str_inj a b : str a = str b -> a = b.
Proof.
  unfold str. intros H.
  apply (f_equal NilEmpty.int_of_string) in H. rewrite !NilEmpty.isi in H.
  injection H as H. rewrite <- (DecimalZ.of_to a), <- (DecimalZ.of_to b). now rewrite H.
Qed.

Lemma limit_rate_other_keys now (store : gmap string redis.entry) user_id k :
  k <> rate_key user_id ->
  snd (limit_rate now store user_id) !! k = store !! k.
Proof.
  intros Hk. unfold limit_rate, redis.set, redis.incr.
  destruct (redis.get now store (rate_key user_id)) as [n|]; cbn [snd].
  - destruct (n <? RATE_LIMIT); cbn [snd]; [|reflexivity].
    destruct (store !! rate_key user_id) as [e|]; [destruct (redis.live now e)|];
      now rewrite lookup_insert_ne.
  - now rewrite lookup_insert_ne.
Qed.

Lemma calls_other_keys times : forall (store : gmap string redis.entry) user_id k,
  k <> rate_key user_id ->
  snd (calls times store user_id) !! k = store !! k.
Proof.
  induction times as [|t times IH]; intros store user_id k Hk; [reflexivity|].
  cbn [calls]. pose proof (limit_rate_other_keys t store user_id k Hk) as H1.
  destruct (limit_rate t store user_id) as [r store1]. cbn [snd] in H1.
  pose proof (IH store1 user_id k Hk) as H2.
  destruct (calls times store1 user_id) as [rs store2]. cbn [snd] in *. congruence.
Qed.

Lemma limit_rate_outcome_local now (store store' : gmap string redis.entry) user_id :
  store' !! rate_key user_id = store !! rate_key user_id ->
  fst (limit_rate now store' user_id) = fst (limit_rate now store user_id).
Proof.
  intros H. unfold limit_rate, redis.get. rewrite H.
  destruct (store !! rate_key user_id) as [e|]; [|reflexivity].
  destruct (redis.live now e); [|reflexivity].
  destruct (redis.value e <? RATE_LIMIT); reflexivity.
Qed.

(** X20. Users are limited independently: whatever calls are made for one
    user id, at whatever times, the verdict for a different user id is the
    one it would have been without them. *)
Theorem limit_rate_per_user (a b : Z) times (store : gmap string redis.entry) now :
  a <> b ->
  fst (limit_rate now (snd (calls times store (str a))) (str b))
  = fst (limit_rate now store (str b)).
Proof.
  intros Hab. apply limit_rate_outcome_local, calls_other_keys.
  intros E. apply rate_key_inj, str_inj in E. congruence.
Qed.

Lemma window_outcomes_full n k :
  RATE_LIMIT <= n -> sample.window_outcomes n k = repeat sample.too_many k.
Proof.
  intros Hn. induction k as [|k IH]; [reflexivity|].
  cbn [sample.window_outcomes repeat].
  destruct (Z.ltb_spec n RATE_LIMIT); [lia|]. now rewrite IH.
Qed.

Lemma window_outcomes_split (room : nat) : forall n k,
  n + Z.of_nat room = RATE_LIMIT ->
  sample.window_outcomes n k
  = (repeat (Return tt) (Nat.min room k) ++ repeat sample.too_many (k - room))%list.
Proof.
  induction room as [|room IH]; intros n k Hn.
  - rewrite window_outcomes_full by lia. cbn [Nat.min repeat app]. now rewrite Nat.sub_0_r.
  - destruct k as [|k]; [reflexivity|]. cbn [sample.window_outcomes].
    destruct (Z.ltb_spec n RATE_LIMIT); [|lia].
    rewrite (IH (n + 1) k) by lia. reflexivity.
Qed.

(** X21. However many calls fall inside one window, exactly the first
    five return and every later one is rejected with 429. *)
Theorem limit_rate_admits_five (store : gmap string redis.entry) user_id first times :
  redis.get first store (rate_key user_id) = None ->
  Forall (fun t => first <= t < first + TIME_FRAME) times ->
  fst (calls (first :: times) store user_id)
  = (repeat (Return tt) (Nat.min 5 (S (length times)))
     ++ repeat (HTTPException 429 "Too many requests. Please try again later.")
               (S (length times) - 5))%list.
Proof.
  intros Hnone Hall. cbn [calls]. rewrite (limit_rate_fresh user_id first store Hnone).
  destruct (calls_in_window user_id times
              (<[rate_key user_id := redis.mkentry 1 (Some (first + TIME_FRAME))]> store)
              1 (first + TIME_FRAME))
    as (store' & n' & Hc & _).
  { apply lookup_insert_eq. }
  { eapply Forall_impl; [exact Hall|]. cbv beta. intros; lia. }
  rewrite Hc. cbn [fst]. rewrite (window_outcomes_split 4 1 (length times)) by reflexivity.
  reflexivity.
Qed.

Lemma calls_app ts1 : forall ts2 (store : gmap string redis.entry) user_id,
  calls (ts1 ++ ts2) store user_id
  = ((fst (calls ts1 store user_id)
      ++ fst (calls ts2 (snd (calls ts1 store user_id)) user_id))%list,
     snd (calls ts2 (snd (calls ts1 store user_id)) user_id)).
Proof.
  induction ts1 as [|t ts1 IH]; intros ts2 store user_id.
  - cbn [app calls fst snd]. now destruct (calls ts2 store user_id).
  - cbn [app calls]. destruct (limit_rate t store user_id) as [r s1].
    rewrite IH. destruct (calls ts1 s1 user_id) as [rs s2]. reflexivity.
Qed.

Lemma calls_window_start (store : gmap string redis.entry) user_id first times :
  redis.get first store (rate_key user_id) = None ->
  Forall (fun t => t < first + TIME_FRAME) times ->
  exists store' n',
    calls (first :: times) store user_id
    = (Return tt :: sample.window_outcomes 1 (length times), store')
    /\ store' !! rate_key user_id
       = Some (redis.mkentry n' (Some (first + TIME_FRAME))).
Proof.
  intros Hnone Hall. cbn [calls]. rewrite (limit_rate_fresh user_id first store Hnone).
  destruct (calls_in_window user_id times
              (<[rate_key user_id := redis.mkentry 1 (Some (first + TIME_FRAME))]> store)
              1 (first + TIME_FRAME))
    as (store' & n' & Hc & Hk); [apply lookup_insert_eq | exact Hall |].
  rewrite Hc. now exists store', n'.
Qed.

(** X22. The window is fixed, not sliding: one call at [first], four at
    [first + d] and five at [first + 60] are all accepted, for every
    [0 <= d < 60]; so ten calls pass within sixty seconds, nine of them
    within [60 - d]. *)
Theorem limit_rate_window_edge (store : gmap string redis.entry) user_id first d :
  redis.get first store (rate_key user_id) = None ->
  0 <= d < TIME_FRAME ->
  let late := first + d in
  let next := first + TIME_FRAME in
  fst (calls ([first; late; late; late; late] ++ [next; next; next; next; next])
             store user_id)
  = repeat (Return tt) 10.
Proof.
  intros Hnone Hd. cbn zeta. rewrite calls_app. cbn [fst].
  destruct (calls_window_start store user_id first
              [first + d; first + d; first + d; first + d] Hnone)
    as (s1 & n1 & Hc1 & Hk1).
  { repeat constructor; lia. }
  rewrite Hc1. cbn [fst snd].
  destruct (calls_window_start s1 user_id (first + TIME_FRAME)
              [first + TIME_FRAME; first + TIME_FRAME; first + TIME_FRAME;
               first + TIME_FRAME])
    as (s2 & n2 & Hc2 & _).
  { eapply limit_rate_expired; [exact Hk1 | lia]. }
  { repeat constructor; unfold TIME_FRAME; lia. }
  rewrite Hc2. reflexivity.
Qed.

End RateLimiterMore.

(** * Properties of the contact routes *)

Section ContactRoutes.

Import repository_contacts services_auth.

Variable self : Auth.

Lemma get_current_user_after (token : token) db db' now u :
  get_current_user self token db now = Return u ->
  users db' = users db ->
  get_current_user self token db' now = Return u.
Proof. intros H Hu. now rewrite (get_current_user_users self token db db' now Hu). Qed.

(** X23. Creating a contact over the API as an authenticated user: when
    the user's counter has reached the limit the call is answered with 429
    and neither the database nor the counter changes; otherwise the contact
    is stored for that user and can be read back with the same token. *)
Theorem create_contact_route token contact db
        (redis_client : gmap string redis.entry) now redis_now u :
  get_current_user self token db now = Return u ->
  let key := rate_limiter.rate_key (str (User.id u)) in
  let out := routes_contacts.create_contact self token contact db redis_client
                                            now redis_now in
  (forall n, redis.get redis_now redis_client key = Some n ->
             rate_limiter.RATE_LIMIT <= n ->
             out = (HTTPException 429 "Too many requests. Please try again later.",
                    (db, redis_client)))
  /\ (redis.get redis_now redis_client key = None
      \/ (exists n, redis.get redis_now redis_client key = Some n
                    /\ n < rate_limiter.RATE_LIMIT) ->
      let created := fst (create_contact db contact u) in
      fst out = Return created
      /\ fst (snd out) = snd (create_contact db contact u)
      /\ routes_contacts.read_contact self token (Contact.id created) (fst (snd out)) now
         = Return created).
Proof.
  intros Hme. cbn zeta. unfold routes_contacts.create_contact. rewrite Hme.
  cbn [on_return]. unfold rate_limiter.limit_rate. split.
  - intros n Hn Hfull. rewrite Hn.
    destruct (Z.ltb_spec n rate_limiter.RATE_LIMIT); [lia|]. reflexivity.
  - intros Hroom.
    assert (Hallowed :
              exists store',
                (match redis.get redis_now redis_client
                         (rate_limiter.rate_key (str (User.id u))) with
                 | Some n =>
                     if n <? rate_limiter.RATE_LIMIT
                     then (Return tt,
                           redis.incr redis_now redis_client
                                      (rate_limiter.rate_key (str (User.id u))))
                     else (HTTPException 429 "Too many requests. Please try again later.",
                           redis_client)
                 | None =>
                     (Return tt,
                      redis.set redis_now redis_client
                                (rate_limiter.rate_key (str (User.id u))) 1
                                rate_limiter.TIME_FRAME)
                 end) = (Return tt, store')).
    { destruct Hroom as [->|(n & -> & Hn)]; [eauto|].
      destruct (Z.ltb_spec n rate_limiter.RATE_LIMIT); [eauto | lia]. }
    destruct Hallowed as [store' ->]. cbn [on_return].
    pose proof (get_created_contact db contact u) as Hget.
    assert (Husers : users (snd (create_contact db contact u)) = users db) by reflexivity.
    destruct (create_contact db contact u) as [created db'].
    cbn [fst snd] in *. repeat split.
    unfold routes_contacts.read_contact.
    rewrite (get_current_user_after token db db' now u Hme Husers).
    cbn [and_then]. now rewrite Hget.
Qed.

Lemma NoDup_map_In_eq {A B} (f : A -> B) (l : list A) x y :
  NoDup (map f l) -> In x l -> In y l -> f x = f y -> x = y.
Proof.
  induction l as [|z l IH]; [contradiction|]. cbn [map].
  intros Hnd. inversion Hnd as [|? ? Hnin Hnd']; subst.
  intros [->|Hx] [->|Hy] E; [reflexivity | | |now apply IH].
  - exfalso. apply Hnin. rewrite E. apply list_elem_of_In. now apply in_map.
  - exfalso. apply Hnin. rewrite <- E. apply list_elem_of_In. now apply in_map.
Qed.

Lemma get_contact_foreign db u c :
  NoDup (map Contact.id (contacts db)) ->
  In c (contacts db) ->
  owned_by u c = false ->
  List.filter (is_row (Contact.id c) u) (contacts db) = [].
Proof.
  intros Hnd Hin Hforeign.
  destruct (List.filter (is_row (Contact.id c) u) (contacts db)) as [|r rows] eqn:Hf;
    [reflexivity|].
  assert (Hr : In r (List.filter (is_row (Contact.id c) u) (contacts db)))
    by (rewrite Hf; now left).
  apply filter_In in Hr as [Hr Hrow]. unfold is_row in Hrow.
  apply andb_true_iff in Hrow as [Hid Ho]. apply Z.eqb_eq in Hid.
  rewrite (NoDup_map_In_eq Contact.id _ r c Hnd Hr Hin Hid) in Ho. congruence.
Qed.

(** X24. With unique primary keys, the id of a contact that belongs to
    someone else is answered with 404 "Contact not found" by the read, the
    update and the delete route alike, and the database stays as it was. *)
Theorem foreign_contact_not_found token db now u c contact_update :
  get_current_user self token db now = Return u ->
  NoDup (map Contact.id (contacts db)) ->
  In c (contacts db) ->
  owned_by u c = false ->
  routes_contacts.read_contact self token (Contact.id c) db now
  = HTTPException 404 "Contact not found"
  /\ routes_contacts.update_contact self token (Contact.id c) contact_update db now
     = (HTTPException 404 "Contact not found", db)
  /\ routes_contacts.delete_contact self token (Contact.id c) db now
     = (HTTPException 404 "Contact not found", db).
Proof.
  intros Hme Hnd Hin Hforeign.
  pose proof (get_contact_foreign db u c Hnd Hin Hforeign) as Hnone.
  unfold routes_contacts.read_contact, routes_contacts.update_contact,
    routes_contacts.delete_contact.
  rewrite Hme. cbn [on_return and_then].
  unfold get_contact, upgrade_contact, delete_contact. rewrite Hnone. cbn [first hd_error].
  repeat split.
Qed.

(** X25. Without a bearer token that [get_current_user] accepts, no
    contact or user route returns anything: each one raises what
    [get_current_user] raised, and the database and the rate-limit store
    are left untouched. *)
Theorem unauthenticated_request token db (redis_client : gmap string redis.entry)
        now redis_now today contact contact_id skip limit first_name second_name email
        src_url :
  is_return (get_current_user self token db now) = false ->
  (is_return (fst (routes_contacts.create_contact self token contact db redis_client
                     now redis_now)) = false
   /\ snd (routes_contacts.create_contact self token contact db redis_client
             now redis_now) = (db, redis_client))
  /\ (is_return (fst (routes_contacts.update_contact self token contact_id contact db now))
      = false
      /\ snd (routes_contacts.update_contact self token contact_id contact db now) = db)
  /\ (is_return (fst (routes_contacts.delete_contact self token contact_id db now)) = false
      /\ snd (routes_contacts.delete_contact self token contact_id db now) = db)
  /\ (is_return (fst (routes_users.update_avatar_user self token src_url db now)) = false
      /\ snd (routes_users.update_avatar_user self token src_url db now) = db)
  /\ is_return (routes_contacts.read_contact self token contact_id db now) = false
  /\ is_return (routes_contacts.read_contacts self token skip limit db now) = false
  /\ is_return (routes_contacts.search_contacts self token first_name second_name email
                  db now) = false
  /\ is_return (routes_contacts.get_contacts_birthday_next_7_days self token db now today)
     = false
  /\ is_return (routes_users.read_users_me self token db now) = false.
Proof.
  unfold routes_contacts.create_contact, routes_contacts.update_contact,
    routes_contacts.delete_contact, routes_users.update_avatar_user,
    routes_contacts.read_contact, routes_contacts.read_contacts,
    routes_contacts.search_contacts, routes_contacts.get_contacts_birthday_next_7_days,
    routes_users.read_users_me.
  destruct (get_current_user self token db now); [discriminate| | |];
    intros _; cbn [on_return and_then fst snd is_return]; repeat split.
Qed.

End ContactRoutes.

(** * Absent users *)

Section AbsentUser.

Import repository_users services_auth.

Variable self : Auth.

(** X26. Three places read an attribute of the looked-up user without
    testing it: for an email nobody is registered under, the
    refresh_token route (given a decodable refresh token with that
    subject), the repository's [confirmed_email] and its [update_avatar]
    raise [AttributeError] and leave the database as it was. *)
Theorem absent_user_dereferenced token db now email url :
  get_user_by_email email db = None ->
  (decode_refresh_token self token now = Return email ->
   routes_auth.refresh_token self token db now
   = (AttributeError "'NoneType' object has no attribute 'refresh_token'", db))
  /\ repository_users.confirmed_email email db
     = (AttributeError "'NoneType' object has no attribute 'confirmed'", db)
  /\ update_avatar email url db
     = (AttributeError "'NoneType' object has no attribute 'avatar'", db).
Proof.
  intros Hnone. repeat split.
  - intros Hd. unfold routes_auth.refresh_token. rewrite Hd. cbn [on_return].
    now rewrite Hnone.
  - unfold repository_users.confirmed_email. now rewrite Hnone.
  - unfold update_avatar. now rewrite Hnone.
Qed.

End AbsentUser.

(** * Closed instances *)

Lemma sample_ids_unique : NoDup (map Contact.id (contacts sample.db)).
Proof. apply (bool_decide_unpack _). vm_compute. exact I. Qed.

Lemma upgrade_contact_then_get_witness :
  repository_contacts.get_contact
    (snd (repository_contacts.upgrade_contact sample.db sample.alice 1 sample.new_contact))
    1 sample.alice
  = Some (Contact.mk 1 "Cid" "Doe" "cid@example.com" "555" (mkdate 1990 2 2) None (Some 1)).
Proof.
  destruct (upgrade_contact_then_get sample.db sample.alice 1 sample.new_contact
              sample.jan29) as (_ & H & _).
  - reflexivity.
  - exact H.
Defined.

Lemma delete_contact_then_get_witness :
  repository_contacts.get_contact
    (snd (repository_contacts.delete_contact sample.db sample.alice 1)) 1 sample.alice
  = None.
Proof.
  destruct (delete_contact_then_get sample.db sample.alice 1 sample.jan29)
    as (_ & H & _).
  - exact sample_ids_unique.
  - reflexivity.
  - exact H.
Defined.

Lemma contact_ids_stay_unique_witness :
  NoDup (map Contact.id
             (contacts (snd (repository_contacts.create_contact sample.db sample.new_contact
                               sample.bob)))).
Proof.
  apply (proj1 (contact_ids_stay_unique sample.db sample.bob sample.new_contact 1
                  sample_ids_unique)).
Defined.

Lemma get_upcoming_birthdays_calendar_witness :
  In sample.jan29
     (repository_contacts.get_upcoming_birthdays (mkdate 2024 1 22) sample.db sample.alice).
Proof.
  apply (get_upcoming_birthdays_calendar (mkdate 2024 1 22) sample.db sample.alice
           sample.jan29 lower_ascii).
  - reflexivity.
  - vm_compute. repeat split; discriminate.
  - vm_compute. discriminate.
  - split; [now left|]. split; [reflexivity|]. exists 7%nat. repeat split. lia.
Defined.

Lemma refresh_token_round_trip_witness :
  services_auth.decode_refresh_token sample.auth sample.stored_token 2000
  = Return (JStr "alice@example.com").
Proof.
  apply (refresh_token_round_trip sample.auth
           (routes_auth.sub_claim (JStr "alice@example.com")) None 1000 2000
           "alice@example.com").
  - reflexivity.
  - reflexivity.
  - vm_compute. discriminate.
Defined.

Lemma access_token_round_trip_witness :
  services_auth.get_current_user sample.auth sample.alice_access sample.db 2000
  = Return sample.alice.
Proof.
  apply (access_token_round_trip sample.auth {["sub" := JStr "alice@example.com"]} None
           1000 2000 "alice@example.com" sample.db).
  - reflexivity.
  - reflexivity.
  - vm_compute. discriminate.
Defined.

Lemma get_email_from_token_any_scope_witness :
  services_auth.get_email_from_token sample.auth sample.alice_access 2000
  = Return (JStr "alice@example.com").
Proof.
  apply (get_email_from_token_any_scope sample.auth {["sub" := JStr "alice@example.com"]}
           None 1000 2000 "alice@example.com").
  - reflexivity.
  - reflexivity.
  - vm_compute. discriminate.
Defined.

Lemma login_success_witness :
  services_auth.get_current_user sample.auth
    (services_auth.create_access_token sample.auth
       (routes_auth.sub_claim (JStr "dave@example.com")) None 1000)
    (snd (routes_auth.login sample.auth sample.auth_db "dave@example.com" "pw" 1000)) 2000
  = Return (repository_users.set_refresh_token sample.dave
              (Some (services_auth.create_refresh_token sample.auth
                       (routes_auth.sub_claim (JStr "dave@example.com")) None 1000))).
Proof.
  destruct (login_success sample.auth sample.auth_db "dave@example.com" "pw" 1000
              (mkTokenModel
                 (services_auth.create_access_token sample.auth
                    (routes_auth.sub_claim (JStr "dave@example.com")) None 1000)
                 (services_auth.create_refresh_token sample.auth
                    (routes_auth.sub_claim (JStr "dave@example.com")) None 1000)
                 "bearer")
              (snd (routes_auth.login sample.auth sample.auth_db "dave@example.com" "pw"
                      1000)))
    as (u & Hu & _ & _ & _ & _ & Hme & _).
  - reflexivity.
  - injection Hu as <-. apply Hme. vm_compute. discriminate.
Defined.

Lemma refresh_token_rotation_witness :
  fst (routes_auth.refresh_token sample.auth sample.stored_token sample.session_db 1500)
  = Return (mkTokenModel
              (services_auth.create_access_token sample.auth
                 (routes_auth.sub_claim (JStr "alice@example.com")) None 1500)
              sample.other_token "bearer").
Proof.
  destruct (refresh_token_rotation sample.auth sample.session_db 1500 "alice@example.com"
              sample.alice_logged_in sample.stored_token) as (H & _).
  - reflexivity.
  - reflexivity.
  - reflexivity.
  - now rewrite H.
Defined.

Lemma register_twice_witness :
  routes_auth.register sample.auth sample.carol None "http://localhost/"
    (snd (fst (routes_auth.register sample.auth sample.carol None "http://localhost/"
                 sample.db)))
  = (HTTPException HTTP_409_CONFLICT "Email already registered",
     snd (fst (routes_auth.register sample.auth sample.carol None "http://localhost/"
                 sample.db)), []).
Proof.
  apply (register_twice sample.auth sample.carol sample.carol None None
           "http://localhost/" "http://localhost/" sample.db).
  reflexivity.
Defined.

Lemma users_stay_unique_witness :
  NoDup (map User.email
             (users (api.run sample.auth
                       [(1000, api.Register sample.carol None "http://localhost/");
                        (1001, api.Register sample.carol None "http://localhost/")]
                       sample.db))).
Proof.
  apply (users_stay_unique sample.auth
           [(1000, api.Register sample.carol None "http://localhost/");
            (1001, api.Register sample.carol None "http://localhost/")] sample.db).
  - apply (bool_decide_unpack _). vm_compute. exact I.
  - apply (bool_decide_unpack _). vm_compute. exact I.
Defined.

Lemma registration_mail_witness :
  exists task,
    snd (routes_auth.register sample.auth sample.carol None "http://localhost/" sample.db)
    = [task]
    /\ services_email.recipients (services_email.message sample.auth task 1000)
       = ["carol@example.com"].
Proof.
  destruct (registration_mail sample.auth sample.carol None "http://localhost/" sample.db
              1000 2000) as (task & Ht & Hr & _).
  - reflexivity.
  - exists task. split; [exact Ht | exact Hr].
Defined.

Lemma update_avatar_user_then_me_witness :
  routes_users.read_users_me sample.auth sample.alice_access
    (snd (routes_users.update_avatar_user sample.auth sample.alice_access
            "https://img.example.com/a.png" sample.db 2000)) 2000
  = Return (repository_users.set_avatar sample.alice (Some "https://img.example.com/a.png")).
Proof.
  destruct (update_avatar_user_then_me sample.auth sample.alice_access
              "https://img.example.com/a.png" sample.db 2000 sample.alice) as (_ & H & _).
  - reflexivity.
  - exact H.
Defined.

Lemma limit_rate_per_user_witness :
  fst (rate_limiter.limit_rate 30
         (snd (rate_limiter.calls [0; 1; 2; 3; 4; 5] ∅ (str 1))) (str 2))
  = Return tt.
Proof.
  rewrite (limit_rate_per_user 1 2 [0; 1; 2; 3; 4; 5] ∅ 30).
  - reflexivity.
  - discriminate.
Defined.

Lemma limit_rate_admits_five_witness :
  fst (rate_limiter.calls [0; 1; 2; 3; 4; 5; 6; 7] ∅ "1")
  = (repeat (Return tt) 5
     ++ repeat (HTTPException 429 "Too many requests. Please try again later.") 3)%list.
Proof.
  apply (limit_rate_admits_five ∅ "1" 0 [1; 2; 3; 4; 5; 6; 7]).
  - reflexivity.
  - repeat constructor; unfold rate_limiter.TIME_FRAME; lia.
Defined.

Lemma limit_rate_window_edge_witness :
  fst (rate_limiter.calls ([0; 59; 59; 59; 59] ++ [60; 60; 60; 60; 60]) ∅ "1")
  = repeat (Return tt) 10.
Proof.
  apply (limit_rate_window_edge ∅ "1" 0 59).
  - reflexivity.
  - unfold rate_limiter.TIME_FRAME. lia.
Defined.

Lemma create_contact_route_witness :
  fst (routes_contacts.create_contact sample.auth sample.bob_access sample.new_contact
         sample.db ∅ 2000 0)
  = Return (fst (repository_contacts.create_contact sample.db sample.new_contact sample.bob)).
Proof.
  destruct (create_contact_route sample.auth sample.bob_access sample.new_contact
              sample.db ∅ 2000 0 sample.bob) as (_ & H).
  - reflexivity.
  - destruct H as (H & _); [left; reflexivity | exact H].
Defined.

Lemma foreign_contact_not_found_witness :
  routes_contacts.read_contact sample.auth sample.bob_access 1 sample.db 2000
  = HTTPException 404 "Contact not found".
Proof.
  destruct (foreign_contact_not_found sample.auth sample.bob_access sample.db 2000
              sample.bob sample.jan29 sample.new_contact) as (H & _).
  - reflexivity.
  - exact sample_ids_unique.
  - now left.
  - reflexivity.
  - exact H.
Defined.

Lemma unauthenticated_request_witness :
  snd (routes_contacts.delete_contact sample.auth (Opaque "not a token") 1 sample.db 2000)
  = sample.db.
Proof.
  destruct (unauthenticated_request sample.auth (Opaque "not a token") sample.db ∅
              2000 0 sample.today sample.new_contact 1 0%nat 10%nat None None None
              "https://img.example.com/a.png") as (_ & _ & (_ & H) & _).
  - reflexivity.
  - exact H.
Defined.

Lemma absent_user_dereferenced_witness :
  repository_users.update_avatar (JStr "nobody@example.com") "https://img.example.com/a.png"
                                 sample.db
  = (AttributeError "'NoneType' object has no attribute 'avatar'", sample.db).
Proof.
  apply (absent_user_dereferenced sample.auth sample.stored_token sample.db 2000
           (JStr "nobody@example.com") "https://img.example.com/a.png").
  reflexivity.
Defined.
